(** * Lux command-line dispatcher (bin/lux) and the responder's [dataFor]

    A shallow embedding of the two JavaScript sources of the repository:

    - the [lux] executable: [inLuxProject], [commandNotFound], [setEnvVar],
      [exec], [exit], [rescue] and the thirteen commander actions;
    - [src/packages/server/responder/utils/data-for.js]: [dataFor].

    The process environment [process.env] is a finite map from variable
    names to strings; what the script does to the outside world (writes to
    [process.env], gateway and handler calls, console output,
    [process.exit]) is recorded as a list of events in program order. *)

From Stdlib Require Import ZArith Ascii String List Bool Lia.
From stdpp Require Import base gmap strings list pretty.
Import ListNotations.

Set Warnings "-register-all".

Local Open Scope string_scope.
Local Open Scope Z_scope.
Local Open Scope list_scope.

(* ===================================================================== *)
(** ** JavaScript values *)
(* ===================================================================== *)

(** The values that reach the dispatcher: parsed options (absent options are
    [undefined], flags are [true], [--port] is the result of
    [Number.parseInt], which is an integer or [NaN]), handler results, and
    the contents of [package.json].  [VNum n] is the number [n] for an
    integer [n] in the safe range (up to 2^53 - 1 in absolute value; both
    zeros are [VNum 0]); every other number that is not [NaN] (a fraction,
    an integer beyond the safe range, an infinity) is a [VFloat], carried
    with the rendering ToString gives it, such as [1e+21] or [0.5].  An
    object is the list of its own properties in creation order. *)
Inductive value : Type :=
| VUndefined
| VNull
| VBool (b : bool)
| VNum (n : Z)
| VNaN
| VFloat (rendering : string)
| VStr (s : string)
| VArr (xs : list value)
| VObj (fields : list (string * value)).

(** [if (v)], [!v], [Boolean(v)]: ECMAScript ToBoolean. *)
Definition truthy (v : value) : bool :=
  match v with
  | VUndefined | VNull | VNaN => false
  | VBool b => b
  | VNum n => negb (n =? 0)
  | VStr s => negb (String.eqb s "")
  | VFloat _ | VArr _ | VObj _ => true
  end.

(** [typeof v === 'number'] *)
Definition is_number (v : value) : bool :=
  match v with
  | VNum _ | VNaN | VFloat _ => true
  | _ => false
  end.

(** The integers a number can hold exactly, [Number.isSafeInteger]. *)
Definition safe_integer (n : Z) : bool :=
  (- (2 ^ 53 - 1) <=? n) && (n <=? 2 ^ 53 - 1).

(** The values that stand for a JavaScript value: every [VNum] in them is
    in the safe range. *)
Fixpoint well_formed (v : value) : bool :=
  match v with
  | VNum n => safe_integer n
  | VArr xs => forallb well_formed xs
  | VObj fields => forallb (fun kv => well_formed (snd kv)) fields
  | _ => true
  end.

(** The codes [process.exit] accepts: anything but a number that is not a
    safe integer, for which it throws. *)
Definition exit_refuses (code : value) : bool :=
  match code with
  | VNaN | VFloat _ => true
  | VNum n => negb (safe_integer n)
  | _ => false
  end.

(** ECMAScript ToString, the coercion [process.env] applies to every value
    stored in it (for a well-formed value: a safe integer is written out
    in decimal).  The elements of an array are joined with a comma, [null]
    and [undefined] elements as the empty string. *)
Fixpoint to_string (v : value) : string :=
  match v with
  | VUndefined => "undefined"
  | VNull => "null"
  | VBool true => "true"
  | VBool false => "false"
  | VNum n => pretty n
  | VNaN => "NaN"
  | VFloat rendering => rendering
  | VStr s => s
  | VArr xs =>
      String.concat ","
        (map (fun x => match x with
                       | VUndefined | VNull => ""
                       | _ => to_string x
                       end) xs)
  | VObj _ => "[object Object]"
  end.

(** Association-list lookup: the first binding of [k]. *)
Fixpoint own_property (k : string) (fs : list (string * value)) : option value :=
  match fs with
  | [] => None
  | (k', v) :: fs' => if String.eqb k k' then Some v else own_property k fs'
  end.

(** Property read [v[k]] for a key [k] that is neither an array index,
    ["length"], nor a member of a built-in prototype (the two keys read by
    the dispatcher, ["dependencies"] and ["lux-framework"], are such keys).
    [None] is the [TypeError] raised on [undefined] and [null]; a primitive
    or an array has no such property and yields [undefined]. *)
Definition get_prop (v : value) (k : string) : option value :=
  match v with
  | VUndefined | VNull => None
  | VObj fs => Some (default VUndefined (own_property k fs))
  | _ => Some VUndefined
  end.

(** An [Error] object: its message and the stack rendering the runtime
    attached to it. *)
Record Error : Type := mkError { message : string; stack : string }.

(** A promise, by the way it settles ([Pending]: it never does). *)
Inductive promise : Type :=
| Resolved (v : value)
| Rejected (e : Error)
| Pending.

(* ===================================================================== *)
(** ** Effects *)
(* ===================================================================== *)

Inductive event : Type :=
| EvSetEnv (key val : string)              (* Reflect.set(process.env, key, val) *)
| EvExec (cmd : string) (args : list value) (* exec(cmd, ...args) entered *)
| EvCall (cmd : string) (args : list value) (* handler(...args) called *)
| EvLog (args : list string)               (* console.log(...args): standard output *)
| EvError (line : string)                  (* console.error: error stream *)
| EvHelp                                   (* cli.help() *)
| EvVersion                                (* commander's listener for [version] *)
| EvExit (code : value).                   (* process.exit(code) *)

Abbreviation env := (gmap string string).

(** A computation reads and writes [process.env], emits events, and either
    returns a value ([Some]) or ends the process ([None], after
    [process.exit]); nothing runs after the process has ended. *)
Definition M (A : Type) : Type := env -> option A * env * list event.

Definition ret {A} (a : A) : M A := fun e => (Some a, e, []).

Definition bind {A B} (m : M A) (f : A -> M B) : M B :=
  fun e =>
    match m e with
    | (None, e1, t1) => (None, e1, t1)
    | (Some a, e1, t1) =>
        match f a e1 with
        | (r, e2, t2) => (r, e2, t1 ++ t2)
        end
    end.

Notation "x <- m ;; k" := (bind m (fun x => k))
  (at level 100, m at next level, right associativity).
Notation "m ;; k" := (bind m (fun _ => k))
  (at level 100, right associativity).

Definition emit (ev : event) : M unit := fun e => (Some tt, e, [ev]).

(** The names every object inherits from [Object.prototype]. *)
Definition inherited (key : string) : bool :=
  bool_decide (key ∈ ["constructor"; "hasOwnProperty"; "isPrototypeOf";
                      "propertyIsEnumerable"; "toLocaleString"; "toString";
                      "valueOf"; "__proto__"; "__defineGetter__";
                      "__defineSetter__"; "__lookupGetter__"; "__lookupSetter__"]).

(** [Reflect.has(process.env, key)]: the variable is set, or the name is
    one that [process.env] inherits. *)
Definition env_has (key : string) : M bool :=
  fun e => (Some (bool_decide (is_Some (e !! key)) || inherited key), e, []).

Definition env_set (key : string) (v : value) : M unit :=
  fun e => (Some tt, <[key := to_string v]> e, [EvSetEnv key (to_string v)]).

Definition process_exit {A} (code : value) : M A :=
  fun e => (None, e, [EvExit code]).

(** Observations of a run. *)
Definition result_of {A} (r : option A * env * list event) : option A := fst (fst r).
Definition env_of {A} (r : option A * env * list event) : env := snd (fst r).
Definition trace_of {A} (r : option A * env * list event) : list event := snd r.

(* ===================================================================== *)
(** ** [setEnvVar] *)
(* ===================================================================== *)

(** [[
function setEnvVar(key, val, def) {
  if (val) {
    Reflect.set(process.env, key, val);
  } else if (!Reflect.has(process.env, key)) {
    Reflect.set(process.env, key, def);
  }
}
]]
    The function has no [return] statement: a call evaluates to
    [undefined]. *)
Definition setEnvVar (key : string) (val def : value) : M value :=
  if truthy val then
    env_set key val ;; ret VUndefined
  else
    has <- env_has key ;;
    if negb has then
      env_set key def ;; ret VUndefined
    else
      ret VUndefined.

(** The number of writes to [process.env] in a trace. *)
Definition env_writes (t : list event) : nat :=
  length (List.filter (fun ev => match ev with EvSetEnv _ _ => true | _ => false end) t).

(* ===================================================================== *)
(** ** The host: what the script finds around it *)
(* ===================================================================== *)

(** Everything the script reads from outside itself.  [cwd] is what
    [process.cwd()] gives, in a host whose working directory can be read
    (for the call that raises see [inLuxProject_call]).  [manifest] is the
    outcome of [require(path.join(cwd, 'package.json'))]: the parsed
    manifest, or [None] when [require] throws (no such file, malformed
    JSON).  [dist] stands for the handlers exported by [../dist]: every
    name the script asks for is exported, and each handler is an
    asynchronous function, so a call always hands back a promise; the
    function gives the way that promise settles.  [frames] is the runtime's
    stack rendering for an error created inside [exec]; [red] and [green]
    are chalk's colour wrappers; [refusal] is the error [process.exit]
    throws for a code it refuses. *)
Record world : Type := mkWorld {
  cwd : string;
  manifest : option value;
  dist : string -> list value -> promise;
  frames : string;
  red : string -> string;
  green : string -> string;
  refusal : value -> Error
}.

(** [os.EOL] and [path.sep] on a POSIX host. *)
Definition EOL : string := String "010" "".
Definition sep : string := "/".

(** [path.join] of already normalised, non-empty segments. *)
Definition path_join (segments : list string) : string :=
  String.concat sep segments.

(** [s.indexOf(needle)]: index of the first occurrence, or -1. *)
Fixpoint indexOf_from (needle s : string) (i : Z) : Z :=
  if String.prefix needle s then i
  else match s with
       | EmptyString => -1
       | String _ s' => indexOf_from needle s' (i + 1)
       end.

Definition indexOf (s needle : string) : Z := indexOf_from needle s 0.

(** [new Error(msg)]: V8 renders the stack as the header ["Error: msg"]
    followed by the frames. *)
Definition new_Error (w : world) (msg : string) : Error :=
  {| message := msg; stack := "Error: " +:+ msg +:+ frames w |}.

(* ===================================================================== *)
(** ** [inLuxProject] *)
(* ===================================================================== *)

(** [[
function inLuxProject() {
  const cwd = process.cwd();
  if (cwd.indexOf(path.join('lux', 'test', 'test-app')) >= 0) {
    return true;
  }
  try {
    const { dependencies } = require(path.join(cwd, 'package.json'));
    return Boolean(dependencies['lux-framework']);
  } catch (err) {
    return false;
  }
}
]]
    The body of the [try] is in the option monad: [None] is a thrown
    exception, which the [catch] turns into [false]. *)
Definition inLuxProject_try (w : world) : option bool :=
  pkg ← manifest w;
  dependencies ← get_prop pkg "dependencies";
  framework ← get_prop dependencies "lux-framework";
  Some (truthy framework).

Definition inLuxProject (w : world) : bool :=
  if 0 <=? indexOf (cwd w) (path_join ["lux"; "test"; "test-app"]) then true
  else match inLuxProject_try w with
       | Some b => b
       | None => false
       end.

(** The call as a whole.  [process.cwd()] stands outside the [try]: when
    the working directory cannot be read (it has been removed, say) it
    raises, and the exception leaves [inLuxProject].  [process_cwd] is what
    the call gives, [None] when it raises; [inLuxProject w] above is the
    rest of the body in a host whose working directory was read. *)
Definition in_directory (w : world) (dir : string) : world :=
  {| cwd := dir; manifest := manifest w; dist := dist w; frames := frames w;
     red := red w; green := green w; refusal := refusal w |}.

Definition inLuxProject_call (process_cwd : option string) (w : world) : option bool :=
  match process_cwd with
  | None => None
  | Some dir => Some (inLuxProject (in_directory w dir))
  end.

(* ===================================================================== *)
(** ** [commandNotFound] *)
(* ===================================================================== *)

Fixpoint all_chars (p : ascii -> bool) (s : string) : bool :=
  match s with
  | EmptyString => true
  | String c s' => p c && all_chars p s'
  end.

(** [[
function commandNotFound(cmd) {
  console.log(
    `${EOL}  ${red(cmd)} is not a valid command.${EOL.repeat(2)}`,
    ` Use ${green('lux --help')} for a full list of commands.${EOL}`
  );
}
]]
    [cmd] is whatever commander passes along with the ['*'] event; chalk
    casts it to a string.  The event records the two arguments of the
    call. *)
Definition commandNotFound (w : world) (cmd : value) : M unit :=
  emit (EvLog
    [ EOL +:+ "  " +:+ red w (to_string cmd) +:+ " is not a valid command."
          +:+ EOL +:+ EOL;
      " Use " +:+ green w "lux --help" +:+ " for a full list of commands." +:+ EOL ]).

(** What [console.log] writes for a call whose first argument holds no
    [%]: the arguments separated by one space.  With a [%] in it the first
    argument is a format string and what is written depends on the
    placeholders; that case is left undetermined ([None]). *)
Definition has_percent (s : string) : bool :=
  negb (all_chars (fun c => negb (Ascii.eqb c "%")) s).

Definition console_log_line (args : list string) : option string :=
  match args with
  | [] => Some ""
  | fmt :: rest => if has_percent fmt then None else Some (String.concat " " args)
  end.

(* ===================================================================== *)
(** ** [exec], [exit], [rescue] *)
(* ===================================================================== *)

(** A line terminator, which the regular expression's [.] does not match. *)
Definition is_line_terminator (c : ascii) : bool :=
  Ascii.eqb c "010" || Ascii.eqb c "013".

(** [new RegExp('^(?:db:.+|test|build|serve|console|generate|destroy)$').test(cmd)] *)
Definition needsProject (cmd : string) : bool :=
  match cmd with
  | String "d" (String "b" (String ":" rest)) =>
      negb (String.eqb rest "") && all_chars (fun c => negb (is_line_terminator c)) rest
  | _ => false
  end
  || String.eqb cmd "test" || String.eqb cmd "build" || String.eqb cmd "serve"
  || String.eqb cmd "console" || String.eqb cmd "generate" || String.eqb cmd "destroy".

Definition not_a_project : string :=
  "Directory does not contain a valid Lux application.".

(** [[
function exec(cmd, ...args) {
  const handler = require('../dist')[cmd];
  const needsProject = new RegExp(...);
  if (needsProject.test(cmd) && !inLuxProject()) {
    return Promise.reject(new Error(
      'Directory does not contain a valid Lux application.'
    ));
  }
  return handler(...args);
}
]] *)
Definition exec (w : world) (cmd : string) (args : list value) : M promise :=
  emit (EvExec cmd args) ;;
  if needsProject cmd && negb (inLuxProject w) then
    ret (Rejected (new_Error w not_a_project))
  else
    emit (EvCall cmd args) ;;
    ret (dist w cmd args).

(** [[
function exit(code) {
  process.exit(typeof code === 'number' ? code : 0);
}
]]
    [process.exit] ends the process, unless it refuses the code: then it
    throws, and the call of [exit], made from a promise callback, leaves
    that promise rejected with the error thrown. *)
Definition exit (w : world) (code : value) : M promise :=
  let code' := if is_number code then code else VNum 0 in
  if exit_refuses code' then
    emit (EvExit code') ;;
    ret (Rejected (refusal w code'))
  else
    process_exit code'.

(** [[
function rescue(err) {
  console.error(err.stack);
  exit(1);
}
]] *)
Definition rescue (w : world) (err : Error) : M promise :=
  emit (EvError (stack err)) ;;
  exit w (VNum 1).

(** [Promise.resolve()] *)
Definition Promise_resolve : M promise := ret (Resolved VUndefined).

(** [p.then(f)]: [f] runs on the value [p] resolves with and the new
    promise follows the one [f] returns; a rejection passes through. *)
Definition then_ (p : M promise) (f : value -> M promise) : M promise :=
  r <- p ;;
  match r with
  | Resolved v => f v
  | Rejected e => ret (Rejected e)
  | Pending => ret Pending
  end.

(** [p.catch(f)]: [f] runs on the error [p] rejects with. *)
Definition catch_ (p : M promise) (f : Error -> M promise) : M promise :=
  r <- p ;;
  match r with
  | Resolved v => ret (Resolved v)
  | Rejected e => f e
  | Pending => ret Pending
  end.

Notation "p '>>then' f" := (then_ p f) (at level 61, left associativity).
Notation "p '>>catch' f" := (catch_ p f) (at level 61, left associativity).

(* ===================================================================== *)
(** ** The commands *)
(* ===================================================================== *)

(** The options commander hands to an action: an option that was not given
    is [undefined], a flag that was given is [true]. *)
Record options : Type := mkOptions {
  database : value;
  environment : value;
  useWeak : value;
  skipBuild : value;
  hot : value;
  port : value;
  cluster : value
}.

(** An invocation: a list of positional values and a record of options.
    On the command line ([lux]) these are the words that follow the
    command name and the options commander parsed; for a callback
    ([action]) they are the arguments the callback is called with and the
    options it destructures from its options argument. *)
Record invocation : Type := mkInvocation {
  positional : list value;
  opts : options
}.

Definition arg (n : nat) (inv : invocation) : value :=
  nth n (positional inv) VUndefined.

Inductive command : Type :=
| New | Test | Build | Console | Serve | Generate | Destroy
| DbCreate | DbDrop | DbReset | DbMigrate | DbRollback | DbSeed.

(** [!v] *)
Definition not_ (v : value) : value := VBool (negb (truthy v)).

(** An expression statement: the value of the chain is dropped. *)
Definition stmt {A} (m : M A) : M unit := _ <- m ;; ret tt.

(** The [.action(...)] callbacks, in the order of the script. *)
Definition action (w : world) (c : command) (inv : invocation) : M unit :=
  let o := opts inv in
  match c with
  | New =>
      stmt (exec w "create" [arg 0 inv; database o]
            >>then exit w
            >>catch rescue w)
  | Test =>
      stmt (exec w "test" []
            >>then exit w
            >>catch rescue w)
  | Build =>
      setEnvVar "NODE_ENV" (environment o) (VStr "development") ;;
      stmt (exec w "build" [not_ (useWeak o)]
            >>then exit w
            >>catch rescue w)
  | Console =>
      setEnvVar "NODE_ENV" (environment o) (VStr "development") ;;
      env_set "LUX_CONSOLE" (VBool true) ;;
      stmt ((if truthy (skipBuild o) then Promise_resolve
             else exec w "build" [not_ (useWeak o)])
            >>then (fun _ => exec w "repl" [])
            >>then exit w
            >>catch rescue w)
  | Serve =>
      let useStrict := not_ (useWeak o) in
      setEnvVar "PORT" (port o) (VNum 4000) ;;
      setEnvVar "NODE_ENV" (environment o) (VStr "development") ;;
      stmt ((if truthy (skipBuild o) then Promise_resolve
             else exec w "build" [useStrict])
            >>then (fun _ => exec w "serve"
                      [VObj [("hot", hot o); ("cluster", cluster o);
                             ("useStrict", useStrict)]])
            >>catch rescue w)
  | Generate =>
      stmt (exec w "generate"
              [VObj [("type", arg 0 inv); ("name", arg 1 inv); ("attrs", arg 2 inv)]]
            >>then exit w
            >>catch rescue w)
  | Destroy =>
      stmt (exec w "destroy" [VObj [("type", arg 0 inv); ("name", arg 1 inv)]]
            >>then exit w
            >>catch rescue w)
  | DbCreate =>
      let useStrict := not_ (useWeak o) in
      setEnvVar "NODE_ENV" (environment o) (VStr "development") ;;
      stmt ((if truthy (skipBuild o) then Promise_resolve
             else exec w "build" [useStrict])
            >>then (fun _ => exec w "dbcreate" [])
            >>then exit w
            >>catch rescue w)
  | DbDrop =>
      let useStrict := not_ (useWeak o) in
      setEnvVar "NODE_ENV" (environment o) (VStr "development") ;;
      stmt ((if truthy (skipBuild o) then Promise_resolve
             else exec w "build" [useStrict])
            >>then (fun _ => exec w "dbdrop" [])
            >>then exit w
            >>catch rescue w)
  | DbReset =>
      let useStrict := not_ (useWeak o) in
      setEnvVar "NODE_ENV" (environment o) (VStr "development") ;;
      stmt ((if truthy (skipBuild o) then Promise_resolve
             else exec w "build" [useStrict])
            >>then (fun _ => exec w "dbdrop" [])
            >>then (fun _ => exec w "dbcreate" [])
            >>then exit w
            >>catch rescue w)
  | DbMigrate =>
      let useStrict := not_ (useWeak o) in
      setEnvVar "NODE_ENV" (environment o) (VStr "development") ;;
      stmt ((if truthy (skipBuild o) then Promise_resolve
             else exec w "build" [useStrict])
            >>then (fun _ => exec w "dbmigrate" [])
            >>then exit w
            >>catch rescue w)
  | DbRollback =>
      let useStrict := not_ (useWeak o) in
      setEnvVar "NODE_ENV" (environment o) (VStr "development") ;;
      stmt ((if truthy (skipBuild o) then Promise_resolve
             else exec w "build" [useStrict])
            >>then (fun _ => exec w "dbrollback" [])
            >>then exit w
            >>catch rescue w)
  | DbSeed =>
      let useStrict := not_ (useWeak o) in
      setEnvVar "NODE_ENV" (environment o) (VStr "development") ;;
      stmt ((if truthy (skipBuild o) then Promise_resolve
             else exec w "build" [useStrict])
            >>then (fun _ => exec w "dbseed" [])
            >>then exit w
            >>catch rescue w)
  end.

(** The names commander listens for: every [.command(...)] name and every
    [.alias(...)] string, as written in the script. *)
Definition registry : list (string * command) :=
  [ ("n", New); ("new", New);
    ("t", Test); ("test", Test);
    ("b", Build); ("build", Build);
    ("c", Console); ("console", Console);
    ("s", Serve); ("serve", Serve);
    ("g", Generate); ("generate", Generate);
    ("d", Destroy); ("destroy <type> <name>", Destroy);
    ("db:create", DbCreate);
    ("db:drop", DbDrop);
    ("db:reset", DbReset);
    ("db:migrate", DbMigrate);
    ("db:rollback", DbRollback);
    ("db:seed", DbSeed) ].

Fixpoint find_command (name : string) (r : list (string * command)) : option command :=
  match r with
  | [] => None
  | (n, c) :: r' => if String.eqb name n then Some c else find_command name r'
  end.

(** *** From the command line to the callback

    Commander (2.x, the release whose unknown-command event is ['*'])
    calls the callback of a command with the declared arguments, in order,
    followed by the command object, which carries the parsed options.  A
    command declared without arguments gets every positional word of the
    command line before the command object. *)

(** The command object, as far as the callbacks read it. *)
Definition command_object (o : options) : value :=
  VObj [ ("database", database o); ("environment", environment o);
         ("useWeak", useWeak o); ("skipBuild", skipBuild o);
         ("hot", hot o); ("port", port o); ("cluster", cluster o) ].

(** [const { database, environment, ... } = v] for the command object or a
    word of the command line: a word has none of these properties. *)
Definition destructure (v : value) : options :=
  let field k := default VUndefined (get_prop v k) in
  {| database := field "database"; environment := field "environment";
     useWeak := field "useWeak"; skipBuild := field "skipBuild";
     hot := field "hot"; port := field "port"; cluster := field "cluster" |}.

(** The arguments of the callback; [inl name] when a required argument is
    missing. *)
Definition callback_arguments (c : command) (inv : invocation)
  : string + list value :=
  let self := command_object (opts inv) in
  match c with
  | New =>                                   (* n <name> *)
      match positional inv with
      | name :: _ => inr [name; self]
      | [] => inl "name"
      end
  | Generate =>                              (* g <type> <name> [attrs...] *)
      match positional inv with
      | type :: name :: attrs => inr [type; name; VArr attrs; self]
      | [_] => inl "name"
      | [] => inl "type"
      end
  | _ => inr (positional inv ++ [self])
  end.

(** Where the callback takes its options from: the second parameter of the
    callback of [n], the first parameter of the callbacks that have
    options.  The other callbacks have no options parameter. *)
Definition options_parameter (c : command) : option nat :=
  match c with
  | New => Some 1%nat
  | Test | Generate | Destroy => None
  | _ => Some 0%nat
  end.

(** What the callback sees. *)
Definition received (c : command) (args : list value) : invocation :=
  {| positional := args;
     opts := match options_parameter c with
             | Some i => destructure (nth i args VUndefined)
             | None => destructure VUndefined
             end |}.

(** Commander's [missingArgument]: three lines on the error stream and
    [process.exit(1)]. *)
Definition missingArgument (name : string) : M unit :=
  emit (EvError "") ;;
  emit (EvError ("  error: missing required argument `" +:+ name +:+ "'")) ;;
  emit (EvError "") ;;
  process_exit (VNum 1).

(** [cli.on('*', commandNotFound).parse(process.argv)] followed by
    [if (!cli.args.length) cli.help()].  Commander emits the first word as
    an event when something listens for it, and ['*'] otherwise, with the
    array of the words: the word itself is taken off the array in the
    first case and left in it in the second.  Besides the registered names
    two events have listeners: [version], set up by [cli.version], and
    ['*'] itself; the listener for [version] writes the version number and
    calls [process.exit(0)].  The array is [cli.args]: when it is left
    empty [cli.help()] prints the help and calls [process.exit()]. *)
Definition cli_help : M unit := emit EvHelp ;; process_exit VUndefined.

Definition lux (w : world) (argv : option (string * invocation)) : M unit :=
  match argv with
  | None => cli_help
  | Some (name, inv) =>
      match find_command name registry with
      | Some c =>
          match callback_arguments c inv with
          | inr args => action w c (received c args)
          | inl missing => missingArgument missing
          end
      | None =>
          if String.eqb name "version" then
            emit EvVersion ;; process_exit (VNum 0)
          else if String.eqb name "*" then
            commandNotFound w (VArr (positional inv)) ;;
            match positional inv with
            | [] => cli_help
            | _ :: _ => ret tt
            end
          else
            commandNotFound w (VArr (VStr name :: positional inv))
      end
  end.

(** *** Reading a trace *)

(** The names of the gateway calls, and of the handler calls, in order. *)
Definition exec_names (t : list event) : list string :=
  omap (fun ev => match ev with EvExec c _ => Some c | _ => None end) t.

Definition call_names (t : list event) : list string :=
  omap (fun ev => match ev with EvCall c _ => Some c | _ => None end) t.

(** The arguments of [process.exit], and the lines on the error stream. *)
Definition exit_codes (t : list event) : list value :=
  omap (fun ev => match ev with EvExit c => Some c | _ => None end) t.

Definition error_lines (t : list event) : list string :=
  omap (fun ev => match ev with EvError s => Some s | _ => None end) t.

(* ===================================================================== *)
(** ** The pipeline of a command, step by step *)
(* ===================================================================== *)

(** The promise [exec] returns, and the events of one call of it. *)
Definition gated (w : world) (cmd : string) : bool :=
  needsProject cmd && negb (inLuxProject w).

Definition gateway (w : world) (cmd : string) (args : list value) : promise :=
  if gated w cmd then Rejected (new_Error w not_a_project)
  else dist w cmd args.

Definition gateway_events (w : world) (cmd : string) (args : list value) : list event :=
  EvExec cmd args :: (if gated w cmd then [] else [EvCall cmd args]).

(** The gateway calls an action chains, in order, with their arguments. *)
Definition build_step (o : options) : list (string * list value) :=
  if truthy (skipBuild o) then [] else [("build", [not_ (useWeak o)])].

Definition steps (c : command) (inv : invocation) : list (string * list value) :=
  let o := opts inv in
  match c with
  | New => [("create", [arg 0 inv; database o])]
  | Test => [("test", [])]
  | Build => [("build", [not_ (useWeak o)])]
  | Console => build_step o ++ [("repl", [])]
  | Serve =>
      build_step o ++
      [("serve", [VObj [("hot", hot o); ("cluster", cluster o);
                        ("useStrict", not_ (useWeak o))]])]
  | Generate =>
      [("generate",
        [VObj [("type", arg 0 inv); ("name", arg 1 inv); ("attrs", arg 2 inv)]])]
  | Destroy => [("destroy", [VObj [("type", arg 0 inv); ("name", arg 1 inv)]])]
  | DbCreate => build_step o ++ [("dbcreate", [])]
  | DbDrop => build_step o ++ [("dbdrop", [])]
  | DbReset => build_step o ++ [("dbdrop", []); ("dbcreate", [])]
  | DbMigrate => build_step o ++ [("dbmigrate", [])]
  | DbRollback => build_step o ++ [("dbrollback", [])]
  | DbSeed => build_step o ++ [("dbseed", [])]
  end.

(** Steps run one after the other; the first one that does not resolve
    ends the run.  [last] is the promise the chain starts from. *)
Fixpoint run_steps (w : world) (last : promise) (ss : list (string * list value))
  : promise * list event :=
  match ss with
  | [] => (last, [])
  | (cmd, args) :: ss' =>
      match gateway w cmd args with
      | Resolved v =>
          let (p, t) := run_steps w (Resolved v) ss' in
          (p, gateway_events w cmd args ++ t)
      | p => (p, gateway_events w cmd args)
      end
  end.

Definition pipeline (w : world) (c : command) (inv : invocation) : promise * list event :=
  run_steps w (Resolved VUndefined) (steps c inv).

(** How the pipeline of command [c] settles. *)
Definition outcome (w : world) (c : command) (inv : invocation) : promise :=
  fst (pipeline w c inv).

(** What the end of the chain does with the outcome: [.then(exit)] (absent
    from the chain of [serve]) and [.catch(rescue)].  A code that
    [process.exit] refuses makes [exit] throw, which [rescue] catches. *)
Definition report (w : world) (c : command) (p : promise) : list event :=
  match p with
  | Resolved v =>
      match c with
      | Serve => []
      | _ =>
          let code := if is_number v then v else VNum 0 in
          if exit_refuses code
          then [EvExit code; EvError (stack (refusal w code)); EvExit (VNum 1)]
          else [EvExit code]
      end
  | Rejected err => [EvError (stack err); EvExit (VNum 1)]
  | Pending => []
  end.

(** The events of a trace other than the writes to [process.env]. *)
Definition is_env_write (ev : event) : bool :=
  match ev with EvSetEnv _ _ => true | _ => false end.

Definition dispatch_events (t : list event) : list event :=
  List.filter (fun ev => negb (is_env_write ev)) t.

(* ===================================================================== *)
(** ** The responder's [dataFor] *)
(* ===================================================================== *)

(** *** The regular expression [/\[public\]/gi]

    A string is read as its list of code units.  Under the [i] flag two
    code units match when their canonical (upper-case) forms agree; no code
    unit outside ASCII canonicalises to an ASCII letter, so only the ASCII
    letters fold. *)
Definition upper (c : ascii) : ascii :=
  let n := nat_of_ascii c in
  if (97 <=? n)%nat && (n <=? 122)%nat then ascii_of_nat (n - 32) else c.

Definition marker : list ascii := list_ascii_of_string "[public]".

(** The pattern [pat] matches at the head of [s], ignoring case. *)
Fixpoint match_here (pat s : list ascii) : bool :=
  match pat, s with
  | [], _ => true
  | p :: pat', c :: s' => Ascii.eqb (upper p) (upper c) && match_here pat' s'
  | _ :: _, [] => false
  end.

(** [/\[public\]/gi.test(s)]: the literal is evaluated afresh at each call,
    so the search starts at index 0. *)
Fixpoint regex_test (s : list ascii) : bool :=
  match_here marker s ||
  match s with
  | [] => false
  | _ :: s' => regex_test s'
  end.

(** [s.replace(/\[public\]/gi, '')]: scanning from the left, each match is
    dropped and the scan resumes behind it.  [skip] counts the code units
    of the current match that are still to be dropped. *)
Fixpoint replace_from (skip : nat) (s : list ascii) : list ascii :=
  match s with
  | [] => []
  | c :: s' =>
      match skip with
      | S k => replace_from k s'
      | O =>
          if match_here marker s then replace_from (length marker - 1) s'
          else c :: replace_from 0 s'
      end
  end.

Definition regex_replace (s : list ascii) : list ascii := replace_from 0 s.

(** *** Occurrences of the marker, position by position

    The reading of "the message with every occurrence of the marker
    removed" that the source is compared with: a code unit stays exactly
    when it lies inside no occurrence. *)
Definition either (c lower upper : ascii) : bool :=
  Ascii.eqb c lower || Ascii.eqb c upper.

(** The eight code units spell the marker, in whatever mix of cases. *)
Definition spells_public (l : list ascii) : bool :=
  match l with
  | [c0; c1; c2; c3; c4; c5; c6; c7] =>
      Ascii.eqb c0 "[" && either c1 "p" "P" && either c2 "u" "U"
      && either c3 "b" "B" && either c4 "l" "L" && either c5 "i" "I"
      && either c6 "c" "C" && Ascii.eqb c7 "]"
  | _ => false
  end.

Definition occurs_at (s : list ascii) (j : nat) : bool :=
  spells_public (take 8 (drop j s)).

Definition inside_occurrence (s : list ascii) (i : nat) : bool :=
  existsb (fun j => occurs_at s j && (i <? j + 8)%nat) (seq 0 (S i)).

Definition without_occurrences (s : list ascii) : list ascii :=
  mjoin (imap (fun i c => if inside_occurrence s i then [] else [c]) s).

Definition contains_marker (s : list ascii) : Prop :=
  exists j, occurs_at s j = true.

(** *** The document *)

(** [JSONAPI$ErrorObject]: [title] and [detail] are optional members. *)
Record JSONAPI_ErrorObject : Type := mkErrorObject {
  status : string;
  title : option string;
  detail : option string
}.

(** The result of [dataFor]: the empty string, or a document
    [{ errors: [...], jsonapi: { version } }]. *)
Inductive dataFor_result : Type :=
| Empty
| Document (errors : list JSONAPI_ErrorObject) (jsonapi_version : string).

Section Responder.

(** Imported by the module and not part of the sources at hand: the table
    of status texts, the JSON:API version, and the outcome of
    [env.isDevelopment()], which reads the process environment. *)
Variable STATUS_CODES : Z -> option string.
Variable VERSION : string.
Variable isDevelopment : bool.

(** [[
export default function dataFor(status, err) {
  if (status < 400 || status > 599) {
    return '';
  }
  const title = STATUS_CODES.get(status);
  const errData = { status: status.toString() };
  if (title) {
    errData.title = title;
  }
  if (err && (env.isDevelopment() || /\[public\]/gi.test(err.message))) {
    errData.detail = err.message.replace(/\[public\]/gi, '');
  }
  return { errors: [errData], jsonapi: { version: VERSION } };
}
]]
    [status] ranges over the integers; [err] is optional. *)
Definition dataFor (status : Z) (err : option Error) : dataFor_result :=
  if (status <? 400) || (status >? 599) then Empty
  else
    let title :=
      match STATUS_CODES status with
      | Some t => if String.eqb t "" then None else Some t
      | None => None
      end in
    let detail :=
      match err with
      | Some e =>
          let msg := list_ascii_of_string (message e) in
          if isDevelopment || regex_test msg
          then Some (string_of_list_ascii (regex_replace msg))
          else None
      | None => None
      end in
    Document [ {| status := pretty status; title := title; detail := detail |} ]
             VERSION.

End Responder.

(** The [detail] members of a result. *)
Definition details (r : dataFor_result) : list string :=
  match r with
  | Empty => []
  | Document errs _ => omap detail errs
  end.

(* ===================================================================== *)
(** ** Readings of the specification, and sample hosts *)
(* ===================================================================== *)

(** [sub] occurs somewhere in [s]. *)
Definition contains (s sub : string) : Prop :=
  exists pre post, s = pre +:+ sub +:+ post.

(** The value a manifest declares for the framework, when it declares one:
    the manifest is an object, its [dependencies] member is an object, and
    that object has an entry for [lux-framework]. *)
Definition declared_framework (m : option value) : option value :=
  match m with
  | Some (VObj members) =>
      match own_property "dependencies" members with
      | Some (VObj deps) => own_property "lux-framework" deps
      | _ => None
      end
  | _ => None
  end.

(** Two hosts used to run the script on concrete inputs: a directory that
    is not a Lux application, and the framework's own test application.
    Every handler resolves with the number 3. *)
Definition resolves_with (v : value) : string -> list value -> promise :=
  fun _ _ => Resolved v.

Definition outside_host : world :=
  {| cwd := "/tmp"; manifest := None; dist := resolves_with (VNum 3);
     frames := ""; red := id; green := id;
     refusal := fun _ => {| message := "out of range"; stack := "RangeError" |} |}.

Definition fixture_host : world :=
  {| cwd := "/home/dev/lux/test/test-app"; manifest := None;
     dist := resolves_with (VNum 3);
     frames := ""; red := id; green := id;
     refusal := fun _ => {| message := "out of range"; stack := "RangeError" |} |}.

Definition no_options : options :=
  {| database := VUndefined; environment := VUndefined; useWeak := VUndefined;
     skipBuild := VUndefined; hot := VUndefined; port := VUndefined;
     cluster := VUndefined |}.

Definition with_skip_build (o : options) : options :=
  {| database := database o; environment := environment o; useWeak := useWeak o;
     skipBuild := VBool true; hot := hot o; port := port o; cluster := cluster o |}.

(** The commands that take [--skip-build], with the gateway calls that
    depend on the build. *)
Definition accepts_skip_build (c : command) : bool :=
  match c with
  | Console | Serve | DbCreate | DbDrop | DbReset | DbMigrate | DbRollback | DbSeed => true
  | New | Test | Build | Generate | Destroy => false
  end.

Definition dependent_actions (c : command) : list string :=
  match c with
  | Console => ["repl"]
  | Serve => ["serve"]
  | DbCreate => ["dbcreate"]
  | DbDrop => ["dbdrop"]
  | DbReset => ["dbdrop"; "dbcreate"]
  | DbMigrate => ["dbmigrate"]
  | DbRollback => ["dbrollback"]
  | DbSeed => ["dbseed"]
  | New | Test | Build | Generate | Destroy => []
  end.

(** The database actions among a list of handler names. *)
Definition database_actions (names : list string) : list string :=
  List.filter (String.prefix "db") names.

(** An object of flags, read by truthiness. *)
Definition flags_of (v : value) : list (string * bool) :=
  match v with
  | VObj fields => map (fun kv => (fst kv, truthy (snd kv))) fields
  | _ => []
  end.

(** [lux serve --port 5000 --use-weak] *)
Definition serve_port_5000_weak : invocation :=
  {| positional := [];
     opts := {| database := VUndefined; environment := VUndefined;
                useWeak := VBool true; skipBuild := VUndefined;
                hot := VUndefined; port := VNum 5000; cluster := VUndefined |} |}.

(** Where the scan stands at position [n]: either it is [skip] code units
    short of the end of an occurrence that began before [n], or no
    occurrence that began before [n] reaches [n]. *)
Definition scan_invariant (s : list ascii) (n skip : nat) : Prop :=
  (skip = 0%nat /\
   forall j, (j < n < j + length marker)%nat -> occurs_at s j = false) \/
  (exists j, (j < n)%nat /\ occurs_at s j = true /\
             (0 < skip)%nat /\ (skip + n = j + length marker)%nat).

(** *** Further readings of the script *)

(** What an action does before it builds its chain: the calls of
    [setEnvVar] and, for [console], the assignment of [LUX_CONSOLE]. *)
Definition prelude (c : command) (inv : invocation) : M unit :=
  let o := opts inv in
  match c with
  | New | Test | Generate | Destroy => ret tt
  | Console =>
      setEnvVar "NODE_ENV" (environment o) (VStr "development") ;;
      env_set "LUX_CONSOLE" (VBool true)
  | Serve =>
      setEnvVar "PORT" (port o) (VNum 4000) ;;
      stmt (setEnvVar "NODE_ENV" (environment o) (VStr "development"))
  | Build | DbCreate | DbDrop | DbReset | DbMigrate | DbRollback | DbSeed =>
      stmt (setEnvVar "NODE_ENV" (environment o) (VStr "development"))
  end.

(** The commands declared with [-e, --environment]. *)
Definition takes_environment (c : command) : bool :=
  match c with
  | New | Test | Generate | Destroy => false
  | _ => true
  end.

(** The value a variable ends up with after [setEnvVar key val def]. *)
Definition resolved (val : value) (old : option string) (def : string) : string :=
  if truthy val then to_string val else default def old.

(** Every step of a list resolves. *)
Definition all_resolve (w : world) (ss : list (string * list value)) : Prop :=
  Forall (fun s => exists v, gateway w (fst s) (snd s) = Resolved v) ss.

(* ===================================================================== *)
(** * Properties *)
(* ===================================================================== *)

(* --------------------------------------------------------------------- *)
(** ** The Environment Resolver *)
(* --------------------------------------------------------------------- *)

Lemma setEnvVar_explicit key val def e :
  truthy val = true ->
  setEnvVar key val def e =
  (Some VUndefined, <[key := to_string val]> e, [EvSetEnv key (to_string val)]).
Proof. intros Hval. unfold setEnvVar. rewrite Hval. reflexivity. Qed.

Lemma setEnvVar_existing key val def e old :
  truthy val = false -> e !! key = Some old ->
  setEnvVar key val def e = (Some VUndefined, e, []).
Proof.
  intros Hval Hold. unfold setEnvVar, bind, env_has. rewrite Hval.
  rewrite bool_decide_eq_true_2 by (rewrite Hold; eauto). reflexivity.
Qed.

Lemma setEnvVar_default key val def e :
  truthy val = false -> e !! key = None -> inherited key = false ->
  setEnvVar key val def e =
  (Some VUndefined, <[key := to_string def]> e, [EvSetEnv key (to_string def)]).
Proof.
  intros Hval Hnone Hown. unfold setEnvVar, bind, env_has. rewrite Hval, Hown.
  rewrite bool_decide_eq_false_2 by (rewrite Hnone; intros [x Hx]; discriminate).
  reflexivity.
Qed.

Lemma setEnvVar_inherited key val def e :
  truthy val = false -> inherited key = true ->
  setEnvVar key val def e = (Some VUndefined, e, []).
Proof.
  intros Hval Hown. unfold setEnvVar, bind, env_has. rewrite Hval, Hown, orb_true_r.
  reflexivity.
Qed.

(** C3, as the claim states it, fails: the resolver hands nothing back.
    With the explicit value ["production"] the call evaluates to
    [undefined], not to ["production"].  And for a key that [process.env]
    inherits, such as [toString], [Reflect.has] answers [true] although no
    such variable is set, so the default is not written. *)
Lemma setEnvVar_returns_undefined :
  truthy (VStr "production") = true /\
  result_of (setEnvVar "NODE_ENV" (VStr "production") (VStr "development") ∅)
    = Some VUndefined /\
  result_of (setEnvVar "NODE_ENV" (VStr "production") (VStr "development") ∅)
    <> Some (VStr "production") /\
  env_of (setEnvVar "toString" VUndefined (VStr "development") ∅) !! "toString"
    = None.
Proof.
  split; [reflexivity | split; [reflexivity | split; [discriminate | reflexivity]]].
Qed.

(** C3 (amended).  For every key, every explicit value and every default
    (well-formed values), [setEnvVar]
    - with a truthy explicit value, sets the variable to the value's string
      form;
    - otherwise, with the variable already set, leaves the environment as
      it is;
    - otherwise, for a key that is not a name [process.env] inherits, sets
      the variable to the string form of the default; for an inherited
      name it leaves the environment as it is;
    where it set or found the variable, the variable then holds the
    effective value; the call itself evaluates to [undefined], it always
    completes, and it writes to the environment at most once. *)
Theorem setEnvVar_resolves (key : string) (val def : value) (e : env) :
  well_formed val = true -> well_formed def = true ->
  let r := setEnvVar key val def e in
  result_of r = Some VUndefined /\
  (truthy val = true ->
     env_of r = <[key := to_string val]> e /\
     env_of r !! key = Some (to_string val) /\
     trace_of r = [EvSetEnv key (to_string val)]) /\
  (truthy val = false -> forall old, e !! key = Some old ->
     env_of r = e /\ env_of r !! key = Some old /\ trace_of r = []) /\
  (truthy val = false -> e !! key = None -> inherited key = false ->
     env_of r = <[key := to_string def]> e /\
     env_of r !! key = Some (to_string def) /\
     trace_of r = [EvSetEnv key (to_string def)]) /\
  (truthy val = false -> e !! key = None -> inherited key = true ->
     env_of r = e /\ trace_of r = []) /\
  (env_writes (trace_of r) <= 1)%nat.
Proof.
  intros _ _. cbv zeta. unfold result_of, env_of, trace_of.
  destruct (truthy val) eqn:Hval.
  - rewrite (setEnvVar_explicit _ _ _ _ Hval). cbn [fst snd].
    rewrite lookup_insert_eq.
    split; [reflexivity|]. split; [auto|]. split; [discriminate|].
    split; [discriminate|]. split; [discriminate|]. cbn. lia.
  - destruct (e !! key) as [old|] eqn:Hkey.
    + rewrite (setEnvVar_existing _ _ _ _ _ Hval Hkey). cbn [fst snd].
      split; [reflexivity|]. split; [discriminate|].
      split; [intros _ old' [= <-]; auto|].
      split; [discriminate|]. split; [discriminate|]. cbn. lia.
    + destruct (inherited key) eqn:Hown.
      * rewrite (setEnvVar_inherited _ _ _ _ Hval Hown). cbn [fst snd].
        split; [reflexivity|]. split; [discriminate|].
        split; [discriminate|]. split; [discriminate|].
        split; [auto|]. cbn. lia.
      * rewrite (setEnvVar_default _ _ _ _ Hval Hkey Hown). cbn [fst snd].
        rewrite lookup_insert_eq.
        split; [reflexivity|]. split; [discriminate|].
        split; [discriminate|]. split; [auto|]. split; [discriminate|]. cbn. lia.
Qed.

Lemma setEnvVar_resolves_witness :
  env_of (setEnvVar "PORT" (VFloat "1e+21") (VNum 4000) {["PORT" := "8080"]})
    !! "PORT" = Some "1e+21".
Proof.
  destruct (setEnvVar_resolves "PORT" (VFloat "1e+21") (VNum 4000) {["PORT" := "8080"]}
              eq_refl eq_refl) as (_ & H & _).
  exact (proj1 (proj2 (H eq_refl))).
Defined.

(* --------------------------------------------------------------------- *)
(** ** The Project Validator *)
(* --------------------------------------------------------------------- *)

Lemma append_String (c : ascii) (a b : string) :
  String c a +:+ b = String c (a +:+ b).
Proof. reflexivity. Qed.

Lemma append_assoc (a b c : string) :
  (a +:+ b) +:+ c = a +:+ (b +:+ c).
Proof.
  induction a as [|x a IH]; [reflexivity|].
  rewrite !append_String, IH. reflexivity.
Qed.

Lemma prefix_spec (a s : string) :
  String.prefix a s = true <-> exists post, s = a +:+ post.
Proof.
  revert s. induction a as [|c a IH]; intros s.
  - split; [intros _; exists s; reflexivity | intros _; destruct s; reflexivity].
  - destruct s as [|d s]; cbn.
    + split; [discriminate | intros [post H]; discriminate].
    + destruct (ascii_dec c d) as [->|Hne].
      * rewrite IH. split; intros [post H]; exists post;
          rewrite append_String in *; congruence.
      * split; [discriminate | intros [post H]; rewrite append_String in H; congruence].
Qed.

Lemma indexOf_from_contains (needle s : string) (i : Z) :
  0 <= i -> (0 <= indexOf_from needle s i <-> contains s needle).
Proof.
  unfold contains. revert i. induction s as [|c s IH]; intros i Hi; cbn [indexOf_from].
  - destruct (String.prefix needle "") eqn:Hp.
    + split; [intros _ | intros _; exact Hi].
      apply prefix_spec in Hp as [post Hp]. exists "", post. exact Hp.
    + split; [lia | intros (pre & post & H)].
      destruct pre; [|discriminate]. cbn in H.
      assert (String.prefix needle "" = true) by (apply prefix_spec; eauto).
      congruence.
  - destruct (String.prefix needle (String c s)) eqn:Hp.
    + split; [intros _ | intros _; exact Hi].
      apply prefix_spec in Hp as [post Hp]. exists "", post. exact Hp.
    + rewrite (IH (i + 1)) by lia. split.
      * intros (pre & post & ->). exists (String c pre), post. reflexivity.
      * intros (pre & post & H). destruct pre as [|d pre].
        -- assert (String.prefix needle (String c s) = true)
             by (apply prefix_spec; exists post; exact H).
           congruence.
        -- rewrite append_String in H. injection H as _ H. eauto.
Qed.

Lemma indexOf_contains (s needle : string) :
  0 <= indexOf s needle <-> contains s needle.
Proof. apply indexOf_from_contains. lia. Qed.

Lemma declared_framework_try (w : world) :
  inLuxProject_try w = Some true <->
  exists v, declared_framework (manifest w) = Some v /\ truthy v = true.
Proof.
  unfold inLuxProject_try, declared_framework.
  destruct (manifest w) as [pkg|]; cbn; [|split; [discriminate | intros (v & H & _); discriminate]].
  destruct pkg; cbn; try (split; [discriminate | intros (v & H & _); discriminate]).
  destruct (own_property "dependencies" fields) as [deps|]; cbn;
    [|split; [discriminate | intros (v & H & _); discriminate]].
  destruct deps; cbn; try (split; [discriminate | intros (v & H & _); discriminate]).
  destruct (own_property "lux-framework" fields0) as [v|]; cbn.
  - split; [intros [= H]; eauto | intros (v' & [= <-] & H); congruence].
  - split; [discriminate | intros (v & H & _); discriminate].
Qed.

(** C6, as the claim states it, fails twice.  A manifest that declares the
    framework with the empty version range (which npm reads as "any
    version") is a declaration, and the validator answers [false].  And
    the validator is not total: when [process.cwd()] raises, the call
    raises. *)
Lemma inLuxProject_declared_but_falsy :
  let w := {| cwd := "/srv/app";
              manifest := Some (VObj [("name", VStr "app");
                                      ("dependencies",
                                       VObj [("lux-framework", VStr "")])]);
              dist := resolves_with VUndefined;
              frames := ""; red := id; green := id;
              refusal := fun _ => {| message := "out of range"; stack := "RangeError" |} |} in
  indexOf (cwd w) (path_join ["lux"; "test"; "test-app"]) = -1 /\
  declared_framework (manifest w) = Some (VStr "") /\
  inLuxProject w = false /\
  inLuxProject_call (Some (cwd w)) w = Some false /\
  ~ (inLuxProject w = true <-> is_Some (declared_framework (manifest w))) /\
  inLuxProject_call None w = None.
Proof.
  cbv zeta. split; [reflexivity|]. split; [reflexivity|]. split; [reflexivity|].
  split; [reflexivity|]. split; [|reflexivity].
  intros [_ H]. discriminate H. eexists. reflexivity.
Qed.

Lemma in_directory_cwd (w : world) : in_directory w (cwd w) = w.
Proof. destruct w. reflexivity. Qed.

(** C6 (amended).  The validator raises exactly when [process.cwd()]
    raises.  When it gives the working directory, the validator answers,
    and
    - answers [true] when the path contains the test-application path;
    - otherwise answers [true] exactly when the manifest declares the
      framework with a truthy value (a declared value that is the empty
      string, [0], [false] or [null] counts as no declaration);
    - answers [false] when the manifest cannot be loaded or reading it
      raises an error. *)
Theorem inLuxProject_eligible (w : world) :
  (forall process_cwd, inLuxProject_call process_cwd w = None <-> process_cwd = None) /\
  inLuxProject_call (Some (cwd w)) w = Some (inLuxProject w) /\
  (contains (cwd w) "lux/test/test-app" -> inLuxProject w = true) /\
  (~ contains (cwd w) "lux/test/test-app" ->
     (inLuxProject w = true <->
      exists v, declared_framework (manifest w) = Some v /\ truthy v = true)) /\
  (~ contains (cwd w) "lux/test/test-app" ->
     manifest w = None \/ inLuxProject_try w = None -> inLuxProject w = false).
Proof.
  split; [intros [dir|]; cbn; split; congruence|].
  split; [cbn; rewrite in_directory_cwd; reflexivity|].
  unfold inLuxProject. change (path_join ["lux"; "test"; "test-app"]) with "lux/test/test-app".
  pose proof (indexOf_contains (cwd w) "lux/test/test-app") as Hc.
  destruct (0 <=? indexOf (cwd w) "lux/test/test-app") eqn:Hle.
  - apply Z.leb_le in Hle. apply Hc in Hle.
    split; [intros _; reflexivity|]. split; intros Hn; contradiction.
  - apply Z.leb_gt in Hle.
    split; [intros H; apply Hc in H; lia|].
    split; intros _.
    + rewrite <- declared_framework_try.
      destruct (inLuxProject_try w) as [[|]|]; split; congruence.
    + intros [Hm|Ht].
      * unfold inLuxProject_try. rewrite Hm. reflexivity.
      * rewrite Ht. reflexivity.
Qed.

Lemma inLuxProject_eligible_witness :
  inLuxProject fixture_host = true.
Proof.
  apply (proj1 (proj2 (proj2 (inLuxProject_eligible fixture_host)))).
  unfold contains. exists "/home/dev/", "". reflexivity.
Defined.

(* --------------------------------------------------------------------- *)
(** ** The Command Handler Gateway *)
(* --------------------------------------------------------------------- *)

Lemma exec_run (w : world) (cmd : string) (args : list value) (e : env) :
  exec w cmd args e = (Some (gateway w cmd args), e, gateway_events w cmd args).
Proof.
  unfold exec, gateway, gateway_events, gated, bind, emit, ret.
  destruct (needsProject cmd && negb (inLuxProject w)); reflexivity.
Qed.

(** The names the pattern accepts: the six literal names, and ["db:"]
    followed by at least one code unit, none of them a line terminator. *)
Lemma needsProject_names (cmd : string) :
  needsProject cmd = true <->
  In cmd ["test"; "build"; "serve"; "console"; "generate"; "destroy"] \/
  exists rest, cmd = "db:" +:+ rest /\ rest <> "" /\
               all_chars (fun c => negb (is_line_terminator c)) rest = true.
Proof.
  unfold needsProject. rewrite !orb_true_iff, !String.eqb_eq. cbn [In]. split.
  - intros [[[[[[H|H]|H]|H]|H]|H]|H]; auto 10.
    right.
    destruct cmd as [|a cmd]; [discriminate|].
    destruct a as [[] [] [] [] [] [] [] []]; try discriminate H.
    destruct cmd as [|b cmd]; [discriminate|].
    destruct b as [[] [] [] [] [] [] [] []]; try discriminate H.
    destruct cmd as [|c rest]; [discriminate|].
    destruct c as [[] [] [] [] [] [] [] []]; try discriminate H.
    apply andb_true_iff in H as [H1 H2]. exists rest. repeat split; auto.
    intros ->. discriminate.
  - intros [[H|[H|[H|[H|[H|[H|[]]]]]]]|(rest & -> & Hne & Hall)]; auto 10.
    do 6 left. change ("db:" +:+ rest) with (String "d" (String "b" (String ":" rest))).
    cbn. rewrite Hall, andb_true_r. destruct rest; [congruence | reflexivity].
Qed.

(** C5.  For every command name the project pattern accepts and every
    working directory the validator rejects, [exec] returns a promise
    rejected with the error "Directory does not contain a valid Lux
    application." and does not call the handler. *)
Theorem exec_rejects_outside_project
    (w : world) (cmd : string) (args : list value) (e : env) :
  needsProject cmd = true ->
  inLuxProject w = false ->
  exists err,
    exec w cmd args e = (Some (Rejected err), e, [EvExec cmd args]) /\
    message err = "Directory does not contain a valid Lux application." /\
    call_names (trace_of (exec w cmd args e)) = [].
Proof.
  intros Hneeds Hout. exists (new_Error w not_a_project).
  rewrite exec_run. unfold gateway, gateway_events, gated.
  rewrite Hneeds, Hout. repeat split.
Qed.

Lemma exec_rejects_outside_project_witness :
  exists err,
    exec outside_host "db:migrate" [] ∅ = (Some (Rejected err), ∅, [EvExec "db:migrate" []]) /\
    message err = "Directory does not contain a valid Lux application." /\
    call_names (trace_of (exec outside_host "db:migrate" [] ∅)) = [].
Proof.
  apply (exec_rejects_outside_project outside_host "db:migrate" [] ∅).
  - reflexivity.
  - reflexivity.
Defined.

(* --------------------------------------------------------------------- *)
(** ** Unknown commands *)
(* --------------------------------------------------------------------- *)

(** C9, as the claim states it, fails for the name [version]: it is not in
    the registry, yet [cli.version] has set up a listener for it, so
    commander answers with the version number, ends the process, and
    [commandNotFound] is never called. *)
Lemma version_is_not_reported_unknown :
  find_command "version" registry = None /\
  trace_of (lux outside_host (Some ("version", mkInvocation [] no_options)) ∅)
    = [EvVersion; EvExit (VNum 0)].
Proof. split; reflexivity. Qed.

(** C9 (amended).  For every name that is not in the registry, other than
    [version], and every list of words after it, the dispatcher calls [console.log] exactly once; the first
    argument of the call says of the words of the command line (for the
    name [*], of the words after it) that they are "not a valid command.";
    when that argument holds no [%], the line written, which is the two
    arguments separated by a space, contains the notice.  Nothing goes to
    the error stream, the gateway is not called, the environment stays as
    it was and [process.exit] is not called with a code; the only thing
    that can follow is [cli.help()], for the name [*] with nothing after
    it: the help is printed and [process.exit()] ends the process with no
    code given. *)
Theorem unknown_command_notice
    (w : world) (name : string) (inv : invocation) (e : env) :
  find_command name registry = None ->
  name <> "version" ->
  well_formed (VArr (positional inv)) = true ->
  let words := if String.eqb name "*" then VArr (positional inv)
               else VArr (VStr name :: positional inv) in
  let notice := red w (to_string words) +:+ " is not a valid command." in
  let run := lux w (Some (name, inv)) e in
  let helps := String.eqb name "*" && bool_decide (positional inv = []) in
  exists fmt hint,
    trace_of run =
      EvLog [fmt; hint] :: (if helps then [EvHelp; EvExit VUndefined] else []) /\
    result_of run = (if helps then None else Some tt) /\
    env_of run = e /\
    contains fmt notice /\
    (forall line, console_log_line [fmt; hint] = Some line -> contains line notice) /\
    error_lines (trace_of run) = [] /\
    exit_codes (trace_of run) = (if helps then [VUndefined] else []) /\
    exec_names (trace_of run) = [].
Proof.
  intros Hunknown Hversion _. cbv zeta. unfold lux. rewrite Hunknown.
  destruct (String.eqb_spec name "version") as [->|_]; [contradiction|].
  assert (Hfmt : forall cmd,
            contains (EOL +:+ "  " +:+ red w cmd +:+ " is not a valid command."
                          +:+ EOL +:+ EOL)
                     (red w cmd +:+ " is not a valid command.")).
  { intros cmd. exists (EOL +:+ "  "), (EOL +:+ EOL).
    rewrite !append_assoc. reflexivity. }
  assert (Hline : forall cmd hint line,
            console_log_line
              [EOL +:+ "  " +:+ red w cmd +:+ " is not a valid command." +:+ EOL +:+ EOL;
               hint] = Some line ->
            contains line (red w cmd +:+ " is not a valid command.")).
  { intros cmd hint line. unfold console_log_line.
    destruct (has_percent _); [discriminate|]. intros [= <-].
    exists (EOL +:+ "  "), (EOL +:+ EOL +:+ " " +:+ hint).
    cbn [String.concat]. rewrite !append_assoc. reflexivity. }
  destruct (String.eqb name "*").
  - unfold commandNotFound, cli_help, bind, emit, process_exit.
    destruct (positional inv) as [|word rest]; do 2 eexists;
      (split; [reflexivity|]); (split; [reflexivity|]); (split; [reflexivity|]);
      (split; [apply Hfmt|]); (split; [apply Hline|]); repeat split.
  - unfold commandNotFound, emit. do 2 eexists.
    split; [reflexivity|]. split; [reflexivity|]. split; [reflexivity|].
    split; [apply Hfmt|]. split; [apply Hline|]. repeat split.
Qed.

Lemma unknown_command_notice_witness :
  exists fmt hint,
    trace_of (lux outside_host (Some ("destroy", mkInvocation [VStr "model"] no_options)) ∅)
      = [EvLog [fmt; hint]] /\
    contains fmt ("destroy,model" +:+ " is not a valid command.").
Proof.
  destruct (unknown_command_notice outside_host "destroy"
              (mkInvocation [VStr "model"] no_options) ∅ eq_refl)
    as (fmt & hint & Htrace & _ & _ & Hfmt & _).
  - discriminate.
  - reflexivity.
  - exists fmt, hint. split; [exact Htrace | exact Hfmt].
Defined.

(* --------------------------------------------------------------------- *)
(** ** Every action runs its pipeline, then reports *)
(* --------------------------------------------------------------------- *)

Lemma dispatch_events_app (t1 t2 : list event) :
  dispatch_events (t1 ++ t2) = dispatch_events t1 ++ dispatch_events t2.
Proof. apply List.filter_app. Qed.

Lemma dispatch_events_cons (ev : event) (t : list event) :
  dispatch_events (ev :: t) =
  if is_env_write ev then dispatch_events t else ev :: dispatch_events t.
Proof.
  unfold dispatch_events. cbn [List.filter].
  destruct (is_env_write ev); reflexivity.
Qed.

Lemma dispatch_events_nil : dispatch_events [] = [].
Proof. reflexivity. Qed.

Lemma dispatch_gateway_events (w : world) (cmd : string) (args : list value) :
  dispatch_events (gateway_events w cmd args) = gateway_events w cmd args.
Proof. unfold gateway_events. destruct (gated w cmd); reflexivity. Qed.

Create Rewrite HintDb dispatch.
#[local] Hint Rewrite dispatch_events_app dispatch_gateway_events
  dispatch_events_cons dispatch_events_nil : dispatch.

(** [setEnvVar] completes, emits nothing but its own write, and leaves
    every other variable alone. *)
Lemma setEnvVar_frame (key : string) (val def : value) (e : env) :
  exists e' t,
    setEnvVar key val def e = (Some VUndefined, e', t) /\
    dispatch_events t = [] /\
    forall k, k <> key -> e' !! k = e !! k.
Proof.
  unfold setEnvVar, bind, env_set, env_has, ret.
  destruct (truthy val).
  - do 2 eexists. split; [reflexivity|]. split; [reflexivity|].
    intros k Hk. apply lookup_insert_ne. congruence.
  - destruct (bool_decide _ || inherited key); cbn [negb].
    + do 2 eexists. split; [reflexivity|]. split; [reflexivity|]. reflexivity.
    + do 2 eexists. split; [reflexivity|]. split; [reflexivity|].
      intros k Hk. apply lookup_insert_ne. congruence.
Qed.

Lemma exit_run (w : world) (v : value) (e : env) :
  exit w v e =
  let code := if is_number v then v else VNum 0 in
  if exit_refuses code then (Some (Rejected (refusal w code)), e, [EvExit code])
  else (None, e, [EvExit code]).
Proof.
  unfold exit, bind, emit, ret, process_exit. cbv zeta.
  destruct (exit_refuses _); reflexivity.
Qed.

Lemma rescue_run (w : world) (err : Error) (e : env) :
  rescue w err e = (None, e, [EvError (stack err); EvExit (VNum 1)]).
Proof. reflexivity. Qed.

Ltac run_monad :=
  cbv beta iota zeta delta
    [bind ret emit stmt then_ catch_ process_exit Promise_resolve
     env_set trace_of env_of fst snd].

(** Runs a chain symbolically: each [setEnvVar] is replaced by its frame,
    each [exec] by the gateway's answer, which is then split by cases. *)
Ltac run_chain :=
  repeat (run_monad;
          rewrite ?exec_run, ?exit_run, ?rescue_run;
          try match goal with
          | |- context [exit_refuses ?code] =>
              destruct (exit_refuses code) eqn:?
          | |- context [setEnvVar ?k ?v ?d ?e] =>
              let H := fresh "Hrun" in
              destruct (setEnvVar_frame k v d e) as (? & ? & H & ? & ?);
              rewrite H; clear H
          | |- context [match gateway ?w ?c ?a with _ => _ end] =>
              destruct (gateway w c a) eqn:?
          end).

Lemma action_dispatch_events (w : world) (c : command) (inv : invocation) (e : env) :
  dispatch_events (trace_of (action w c inv e)) =
  snd (pipeline w c inv) ++ report w c (outcome w c inv).
Proof.
  unfold outcome, pipeline.
  destruct c; unfold action, steps, build_step;
    try destruct (truthy (skipBuild (opts inv)));
    run_chain;
    cbn [run_steps app];
    repeat match goal with H : gateway _ _ _ = _ |- _ => rewrite H; clear H end;
    cbn [run_steps report fst snd]; cbv zeta;
    repeat match goal with H : exit_refuses _ = _ |- _ => rewrite H; clear H end;
    autorewrite with dispatch;
    repeat match goal with H : dispatch_events _ = _ |- _ => rewrite H; clear H end;
    cbn [is_env_write app is_number];
    rewrite <- ?app_assoc, ?app_nil_r; reflexivity.
Qed.

(** *** Reading names and exit codes off a trace *)

Lemma exec_names_dispatch (t : list event) :
  exec_names (dispatch_events t) = exec_names t.
Proof.
  unfold exec_names, dispatch_events.
  induction t as [|[] t IH]; cbn; congruence.
Qed.

Lemma call_names_dispatch (t : list event) :
  call_names (dispatch_events t) = call_names t.
Proof.
  unfold call_names, dispatch_events.
  induction t as [|[] t IH]; cbn; congruence.
Qed.

Lemma exit_codes_dispatch (t : list event) :
  exit_codes (dispatch_events t) = exit_codes t.
Proof.
  unfold exit_codes, dispatch_events.
  induction t as [|[] t IH]; cbn; congruence.
Qed.

Lemma error_lines_dispatch (t : list event) :
  error_lines (dispatch_events t) = error_lines t.
Proof.
  unfold error_lines, dispatch_events.
  induction t as [|[] t IH]; cbn; congruence.
Qed.

Lemma exec_names_gateway (w : world) (cmd : string) (args : list value) :
  exec_names (gateway_events w cmd args) = [cmd].
Proof. unfold gateway_events. destruct (gated w cmd); reflexivity. Qed.

Lemma call_names_gateway (w : world) (cmd : string) (args : list value) :
  call_names (gateway_events w cmd args) = if gated w cmd then [] else [cmd].
Proof. unfold gateway_events. destruct (gated w cmd); reflexivity. Qed.

Lemma exit_codes_gateway (w : world) (cmd : string) (args : list value) :
  exit_codes (gateway_events w cmd args) = [].
Proof. unfold gateway_events. destruct (gated w cmd); reflexivity. Qed.

Lemma error_lines_gateway (w : world) (cmd : string) (args : list value) :
  error_lines (gateway_events w cmd args) = [].
Proof. unfold gateway_events. destruct (gated w cmd); reflexivity. Qed.

Lemma exec_names_report (w : world) (c : command) (p : promise) :
  exec_names (report w c p) = [].
Proof.
  destruct p as [v| |], c; try reflexivity;
    cbn [report]; cbv zeta; destruct (exit_refuses _); reflexivity.
Qed.

Lemma call_names_report (w : world) (c : command) (p : promise) :
  call_names (report w c p) = [].
Proof.
  destruct p as [v| |], c; try reflexivity;
    cbn [report]; cbv zeta; destruct (exit_refuses _); reflexivity.
Qed.

(** *** Runs of a list of steps, by induction on the list *)

Lemma run_steps_quiet (w : world) (ss : list (string * list value)) (last : promise) :
  exit_codes (snd (run_steps w last ss)) = [] /\
  error_lines (snd (run_steps w last ss)) = [].
Proof.
  revert last. induction ss as [|[cmd args] ss IH]; intros last; cbn [run_steps].
  - split; reflexivity.
  - destruct (gateway w cmd args) as [v| |]; cbn [snd];
      try (split; [apply exit_codes_gateway | apply error_lines_gateway]).
    specialize (IH (Resolved v)). destruct (run_steps w (Resolved v) ss) as [p t].
    cbn [snd] in *. unfold exit_codes, error_lines in *. rewrite !omap_app.
    fold (exit_codes (gateway_events w cmd args)).
    fold (error_lines (gateway_events w cmd args)).
    rewrite exit_codes_gateway, error_lines_gateway. exact IH.
Qed.

(** The gateway calls of a run are an initial segment of the steps. *)
Lemma run_steps_exec_prefix (w : world) (ss : list (string * list value)) (last : promise) :
  exec_names (snd (run_steps w last ss)) `prefix_of` map fst ss.
Proof.
  revert last. induction ss as [|[cmd args] ss IH]; intros last; cbn [run_steps map fst].
  - apply prefix_nil.
  - destruct (gateway w cmd args) as [v| |]; cbn [snd];
      try (rewrite exec_names_gateway; apply (prefix_app [cmd]), prefix_nil).
    specialize (IH (Resolved v)). destruct (run_steps w (Resolved v) ss) as [p t].
    cbn [snd] in *. unfold exec_names in *. rewrite omap_app.
    fold (exec_names (gateway_events w cmd args)). rewrite exec_names_gateway.
    apply (prefix_app [cmd]), IH.
Qed.

(** A run that resolves has gone through every step. *)
Lemma run_steps_resolved (w : world) (ss : list (string * list value)) (last : promise) (v : value) :
  fst (run_steps w last ss) = Resolved v ->
  exec_names (snd (run_steps w last ss)) = map fst ss.
Proof.
  revert last. induction ss as [|[cmd args] ss IH]; intros last; cbn [run_steps map fst].
  - reflexivity.
  - destruct (gateway w cmd args) as [v'| |]; cbn [fst snd]; try discriminate.
    specialize (IH (Resolved v')). destruct (run_steps w (Resolved v') ss) as [p t].
    cbn [fst snd] in *. intros Hp. unfold exec_names in *. rewrite omap_app.
    fold (exec_names (gateway_events w cmd args)). rewrite exec_names_gateway.
    cbn [app]. f_equal. apply IH, Hp.
Qed.

(** Every gateway call of a run is one of the steps, with its arguments. *)
Lemma run_steps_exec_in (w : world) (ss : list (string * list value)) (last : promise)
    (cmd : string) (args : list value) :
  In (EvExec cmd args) (snd (run_steps w last ss)) -> In (cmd, args) ss.
Proof.
  revert last. induction ss as [|[cmd' args'] ss IH]; intros last; cbn [run_steps].
  - intros [].
  - assert (Hg : In (EvExec cmd args) (gateway_events w cmd' args') ->
                 (cmd', args') = (cmd, args)).
    { unfold gateway_events. destruct (gated w cmd'); cbn.
      - intros [[= -> ->]|[]]; reflexivity.
      - intros [[= -> ->]|[[=]|[]]]; reflexivity. }
    destruct (gateway w cmd' args') as [v| |]; cbn [snd];
      try (intros H; left; apply Hg, H).
    specialize (IH (Resolved v)). destruct (run_steps w (Resolved v) ss) as [p t].
    cbn [snd] in *. rewrite in_app_iff. intros [H|H]; [left; apply Hg, H | right; apply IH, H].
Qed.

Lemma exec_names_app (t1 t2 : list event) :
  exec_names (t1 ++ t2) = exec_names t1 ++ exec_names t2.
Proof. apply omap_app. Qed.

Lemma call_names_app (t1 t2 : list event) :
  call_names (t1 ++ t2) = call_names t1 ++ call_names t2.
Proof. apply omap_app. Qed.

Lemma exit_codes_app (t1 t2 : list event) :
  exit_codes (t1 ++ t2) = exit_codes t1 ++ exit_codes t2.
Proof. apply omap_app. Qed.

Lemma error_lines_app (t1 t2 : list event) :
  error_lines (t1 ++ t2) = error_lines t1 ++ error_lines t2.
Proof. apply omap_app. Qed.

Create Rewrite HintDb names.
#[local] Hint Rewrite exec_names_app call_names_app exit_codes_app error_lines_app
  exec_names_gateway call_names_gateway exit_codes_gateway error_lines_gateway
  exec_names_report call_names_report : names.

Lemma action_exec_names (w : world) (c : command) (inv : invocation) (e : env) :
  exec_names (trace_of (action w c inv e)) = exec_names (snd (pipeline w c inv)).
Proof.
  rewrite <- exec_names_dispatch, action_dispatch_events.
  autorewrite with names. apply app_nil_r.
Qed.

Lemma action_call_names (w : world) (c : command) (inv : invocation) (e : env) :
  call_names (trace_of (action w c inv e)) = call_names (snd (pipeline w c inv)).
Proof.
  rewrite <- call_names_dispatch, action_dispatch_events.
  autorewrite with names. apply app_nil_r.
Qed.

Lemma action_exit_codes (w : world) (c : command) (inv : invocation) (e : env) :
  exit_codes (trace_of (action w c inv e)) = exit_codes (report w c (outcome w c inv)).
Proof.
  rewrite <- exit_codes_dispatch, action_dispatch_events, exit_codes_app.
  unfold pipeline. rewrite (proj1 (run_steps_quiet w _ _)). reflexivity.
Qed.

Lemma action_error_lines (w : world) (c : command) (inv : invocation) (e : env) :
  error_lines (trace_of (action w c inv e)) = error_lines (report w c (outcome w c inv)).
Proof.
  rewrite <- error_lines_dispatch, action_dispatch_events, error_lines_app.
  unfold pipeline. rewrite (proj2 (run_steps_quiet w _ _)). reflexivity.
Qed.

(** Unfolds the pipeline of a concrete command and splits on the way each
    gateway call settles. *)
Ltac run_pipeline :=
  unfold pipeline, steps, build_step;
  repeat match goal with
         | H : truthy (skipBuild _) = _ |- _ => rewrite H
         | H : gateway _ _ _ = _ |- _ => rewrite H
         end;
  cbn [run_steps app];
  repeat match goal with
         | H : gateway _ _ _ = _ |- _ => rewrite H
         | |- context [match gateway ?w ?c ?a with _ => _ end] =>
             destruct (gateway w c a) eqn:?
         end;
  cbn [run_steps fst snd];
  autorewrite with names; cbn [app].

(* --------------------------------------------------------------------- *)
(** ** The build gate *)
(* --------------------------------------------------------------------- *)

(** What the callback of a command that takes [--skip-build] does with the
    options it destructured. *)
Lemma build_gate_of_callback
    (w : world) (c : command) (inv : invocation) (e : env) :
  accepts_skip_build c = true ->
  let o := opts inv in
  let t := trace_of (action w c inv e) in
  (truthy (skipBuild o) = true ->
     ~ In "build" (exec_names t) /\ ~ In "build" (call_names t)) /\
  (truthy (skipBuild o) = false ->
     exists rest, exec_names t = "build" :: rest /\
                  rest `prefix_of` dependent_actions c) /\
  (truthy (skipBuild o) = false ->
     forall v, gateway w "build" [not_ (useWeak o)] = Resolved v ->
     exists rest, exec_names t = "build" :: hd "" (dependent_actions c) :: rest) /\
  (truthy (skipBuild o) = false ->
     forall err, gateway w "build" [not_ (useWeak o)] = Rejected err ->
     exec_names t = ["build"] /\
     forall a, In a (dependent_actions c) ->
               ~ In a (exec_names t) /\ ~ In a (call_names t)).
Proof.
  intros Hc. cbv zeta. rewrite action_exec_names, action_call_names.
  split; [|split; [|split]]; intros Hskip.
  - destruct c; try discriminate Hc; run_pipeline;
      repeat match goal with |- context [gated ?w ?c] => destruct (gated w c) end;
      cbn; intuition discriminate.
  - destruct c; try discriminate Hc; run_pipeline;
      eexists; (split; [reflexivity|]); cbn [dependent_actions];
      unfold prefix; eexists; reflexivity.
  - intros v Hv. destruct c; try discriminate Hc; run_pipeline;
      eexists; reflexivity.
  - intros err Herr. destruct c; try discriminate Hc; run_pipeline;
      (split; [reflexivity|]); cbn [dependent_actions]; intros a Ha;
      destruct (gated w "build"); cbn in *; intuition (subst; discriminate).
Qed.

Lemma destructure_command_object (o : options) :
  destructure (command_object o) = o.
Proof. destruct o. reflexivity. Qed.




(* --------------------------------------------------------------------- *)
(** ** The Exit/Error Reporter *)
(* --------------------------------------------------------------------- *)




(* --------------------------------------------------------------------- *)
(** ** Project-scoped commands outside a project *)
(* --------------------------------------------------------------------- *)

(** Outside a project, a build-gated command that is not told to skip the
    build stops at the build step: no handler runs. *)
Lemma outside_project_build_stops
    (w : world) (c : command) (inv : invocation) (e : env) :
  accepts_skip_build c = true ->
  inLuxProject w = false ->
  truthy (skipBuild (opts inv)) = false ->
  call_names (trace_of (action w c inv e)) = [].
Proof.
  intros Hc Hout Hskip. rewrite action_call_names.
  assert (Hb : forall a, gateway w "build" a = Rejected (new_Error w not_a_project)).
  { intros a. unfold gateway, gated. rewrite Hout. reflexivity. }
  assert (Hg : gated w "build" = true) by (unfold gated; rewrite Hout; reflexivity).
  destruct c; try discriminate Hc; unfold pipeline, steps, build_step;
    rewrite Hskip; cbn [run_steps app]; rewrite Hb; cbn [snd];
    rewrite call_names_gateway, Hg; reflexivity.
Qed.

(** C4: what the code does at the failing inputs.  In a directory that is
    not a Lux application, [lux db:create --skip-build] and
    [lux console --skip-build] ask the gateway for [dbcreate] and [repl];
    the pattern of [exec] accepts neither name, so both handlers run and
    the process exits with the handler's result. *)
Theorem skip_build_outside_project_runs_handler :
  let inv := mkInvocation [] (with_skip_build no_options) in
  inLuxProject outside_host = false /\
  needsProject "dbcreate" = false /\
  needsProject "repl" = false /\
  trace_of (lux outside_host (Some ("db:create", inv)) ∅) =
    [EvSetEnv "NODE_ENV" "development";
     EvExec "dbcreate" []; EvCall "dbcreate" []; EvExit (VNum 3)] /\
  call_names (trace_of (lux outside_host (Some ("console", inv)) ∅)) = ["repl"] /\
  exit_codes (trace_of (lux outside_host (Some ("console", inv)) ∅)) = [VNum 3].
Proof. cbv zeta. repeat split. Qed.

(* --------------------------------------------------------------------- *)
(** ** [db:reset] *)
(* --------------------------------------------------------------------- *)

Lemma gateway_ungated (w : world) (cmd : string) (args : list value) :
  needsProject cmd = false -> gateway w cmd args = dist w cmd args.
Proof. intros H. unfold gateway, gated. rewrite H. reflexivity. Qed.



(* --------------------------------------------------------------------- *)
(** ** Strict mode and the [serve] flags *)
(* --------------------------------------------------------------------- *)

(** Every gateway call of an action is one of the steps of its command. *)
Lemma action_exec_in_steps
    (w : world) (c : command) (inv : invocation) (e : env)
    (cmd : string) (args : list value) :
  In (EvExec cmd args) (trace_of (action w c inv e)) <->
  In (EvExec cmd args) (snd (pipeline w c inv)).
Proof.
  transitivity (In (EvExec cmd args) (dispatch_events (trace_of (action w c inv e)))).
  - unfold dispatch_events. rewrite List.filter_In. cbn. intuition.
  - rewrite action_dispatch_events, in_app_iff.
    split; [intros [H|H]; [exact H|] | auto].
    destruct (outcome w c inv), c; cbn in H;
      try (destruct (exit_refuses _) in H; cbn in H); intuition discriminate.
Qed.

Lemma run_steps_call_is_step (w : world) (ss : list (string * list value)) (last : promise)
    (cmd : string) (args : list value) :
  In (EvCall cmd args) (snd (run_steps w last ss)) -> In (cmd, args) ss.
Proof.
  revert last. induction ss as [|[cmd' args'] ss IH]; intros last; cbn [run_steps].
  - intros [].
  - assert (Hg : In (EvCall cmd args) (gateway_events w cmd' args') ->
                 (cmd', args') = (cmd, args)).
    { unfold gateway_events. destruct (gated w cmd'); cbn.
      - intros [[=]|[]].
      - intros [[=]|[[= -> ->]|[]]]; reflexivity. }
    destruct (gateway w cmd' args') as [v| |]; cbn [snd];
      try (intros H; left; apply Hg, H).
    specialize (IH (Resolved v)). destruct (run_steps w (Resolved v) ss) as [p t].
    cbn [snd] in *. rewrite in_app_iff. intros [H|H]; [left; apply Hg, H | right; apply IH, H].
Qed.

(** The first step is always asked for. *)
Lemma run_steps_first (w : world) (ss : list (string * list value)) (last : promise)
    (cmd : string) (args : list value) :
  In (EvExec cmd args) (snd (run_steps w last ((cmd, args) :: ss))).
Proof.
  cbn [run_steps].
  destruct (gateway w cmd args) as [v| |]; cbn [snd]; try (left; reflexivity).
  destruct (run_steps w (Resolved v) ss) as [p t]. cbn [snd].
  apply in_app_iff. left. left. reflexivity.
Qed.

(** When the first step resolves, the second is asked for, and its
    handler is called unless the gateway refuses the name. *)
Lemma run_steps_second (w : world) (ss : list (string * list value)) (last : promise)
    (cmd cmd' : string) (args args' : list value) (v : value) :
  gateway w cmd args = Resolved v ->
  gated w cmd' = false ->
  In (EvExec cmd' args') (snd (run_steps w last ((cmd, args) :: (cmd', args') :: ss))) /\
  In (EvCall cmd' args') (snd (run_steps w last ((cmd, args) :: (cmd', args') :: ss))).
Proof.
  intros Hfirst Hgate.
  assert (H : In (EvExec cmd' args') (gateway_events w cmd' args') /\
              In (EvCall cmd' args') (gateway_events w cmd' args')).
  { unfold gateway_events. rewrite Hgate. split; [left | right; left]; reflexivity. }
  cbn [run_steps]. rewrite Hfirst.
  destruct (gateway w cmd' args') as [v'| |]; cbn [snd];
    try (destruct (run_steps w (Resolved v') ss) as [p t]); cbn [snd];
    rewrite !in_app_iff; tauto.
Qed.

(** Every handler call of an action is one of the steps of its command. *)
Lemma action_call_in_steps
    (w : world) (c : command) (inv : invocation) (e : env)
    (cmd : string) (args : list value) :
  In (EvCall cmd args) (trace_of (action w c inv e)) ->
  In (cmd, args) (steps c inv).
Proof.
  intros Hin.
  assert (H : In (EvCall cmd args) (dispatch_events (trace_of (action w c inv e)))).
  { unfold dispatch_events. rewrite List.filter_In. split; [exact Hin | reflexivity]. }
  rewrite action_dispatch_events, in_app_iff in H. destruct H as [H|H].
  - apply (run_steps_call_is_step w _ (Resolved VUndefined)). exact H.
  - exfalso. destruct (outcome w c inv), c; cbn in H;
      try (destruct (exit_refuses _) in H; cbn in H); intuition discriminate.
Qed.

(** The strict-mode flag a callback passes to [build] and to [serve] is the
    negation of the [useWeak] it destructured. *)
Lemma strict_flag_of_callback
    (w : world) (c : command) (inv : invocation) (e : env)
    (cmd : string) (args : list value) :
  In (EvExec cmd args) (trace_of (action w c inv e)) \/
  In (EvCall cmd args) (trace_of (action w c inv e)) ->
  (cmd = "build" -> args = [VBool (negb (truthy (useWeak (opts inv))))]) /\
  (cmd = "serve" ->
   args = [VObj [("hot", hot (opts inv)); ("cluster", cluster (opts inv));
                 ("useStrict", VBool (negb (truthy (useWeak (opts inv)))))]]).
Proof.
  intros Hin.
  assert (Hstep : In (cmd, args) (steps c inv)).
  { destruct Hin as [Hin|Hin].
    - apply action_exec_in_steps, run_steps_exec_in in Hin. exact Hin.
    - apply action_call_in_steps in Hin. exact Hin. }
  clear Hin.
  destruct c; unfold steps, build_step in Hstep;
    try destruct (truthy (skipBuild (opts inv)));
    cbn [In app] in Hstep; unfold not_;
    repeat match goal with
           | H : _ \/ _ |- _ => destruct H
           | H : False |- _ => destruct H
           | H : (_, _) = (_, _) |- _ => injection H as <- <-
           end;
    split; intros Hcmd; try discriminate Hcmd; reflexivity.
Qed.

(** Without a stray word the callback destructures the options commander
    parsed. *)
Lemma received_plain (c : command) (o : options) :
  options_parameter c = Some 0%nat ->
  opts (received c [command_object o]) = o.
Proof.
  intros Hc. unfold received. rewrite Hc. cbn [opts nth].
  apply destructure_command_object.
Qed.




(* --------------------------------------------------------------------- *)
(** ** [dataFor]: what of an error reaches the response *)
(* --------------------------------------------------------------------- *)

(** Under the [i] flag a letter of the pattern matches its two cases and
    nothing else; a bracket matches itself only. *)
Ltac by_code_unit c :=
  destruct c as [[] [] [] [] [] [] [] []]; vm_compute; reflexivity.

Lemma fold_p (c : ascii) : Ascii.eqb (upper "p") (upper c) = either c "p" "P".
Proof. by_code_unit c. Qed.

Lemma fold_u (c : ascii) : Ascii.eqb (upper "u") (upper c) = either c "u" "U".
Proof. by_code_unit c. Qed.

Lemma fold_b (c : ascii) : Ascii.eqb (upper "b") (upper c) = either c "b" "B".
Proof. by_code_unit c. Qed.

Lemma fold_l (c : ascii) : Ascii.eqb (upper "l") (upper c) = either c "l" "L".
Proof. by_code_unit c. Qed.

Lemma fold_i (c : ascii) : Ascii.eqb (upper "i") (upper c) = either c "i" "I".
Proof. by_code_unit c. Qed.

Lemma fold_c (c : ascii) : Ascii.eqb (upper "c") (upper c) = either c "c" "C".
Proof. by_code_unit c. Qed.

Lemma fold_open (c : ascii) : Ascii.eqb (upper "[") (upper c) = Ascii.eqb c "[".
Proof. by_code_unit c. Qed.

Lemma fold_close (c : ascii) : Ascii.eqb (upper "]") (upper c) = Ascii.eqb c "]".
Proof. by_code_unit c. Qed.

(** The case-insensitive match of the pattern at the head of a string is
    an occurrence of the marker as [spells_public] reads it. *)
Lemma match_here_spells (l : list ascii) :
  match_here marker l = spells_public (take 8 l).
Proof.
  destruct l as [|c0 [|c1 [|c2 [|c3 [|c4 [|c5 [|c6 [|c7 l]]]]]]]];
    cbn [marker list_ascii_of_string match_here take spells_public];
    rewrite ?andb_false_r; try reflexivity.
  rewrite fold_open, fold_p, fold_u, fold_b, fold_l, fold_i, fold_c, fold_close.
  rewrite andb_true_r, !andb_assoc. reflexivity.
Qed.

Lemma occurs_at_match (s : list ascii) (j : nat) :
  occurs_at s j = match_here marker (drop j s).
Proof. unfold occurs_at. symmetry. apply match_here_spells. Qed.

(** [test] finds the marker exactly when it occurs at some position. *)
Lemma regex_test_contains (s : list ascii) :
  regex_test s = true <-> contains_marker s.
Proof.
  unfold contains_marker. induction s as [|c s IH]; cbn [regex_test].
  - split; [discriminate | intros [j H]].
    rewrite occurs_at_match, drop_nil in H. discriminate.
  - rewrite orb_true_iff, IH. split.
    + intros [H|[j H]]; [exists 0%nat | exists (S j)];
        rewrite occurs_at_match in *; assumption.
    + intros [[|j] H]; [left | right; exists j];
        rewrite occurs_at_match in *; assumption.
Qed.

Lemma inside_occurrence_spec (s : list ascii) (i : nat) :
  inside_occurrence s i = true <->
  exists j, (j <= i < j + length marker)%nat /\ occurs_at s j = true.
Proof.
  change (length marker) with 8%nat.
  unfold inside_occurrence. rewrite existsb_exists. split.
  - intros (j & Hin & H). apply in_seq in Hin.
    apply andb_true_iff in H as [Hocc Hlt]. apply Nat.ltb_lt in Hlt.
    exists j. split; [lia | exact Hocc].
  - intros (j & Hj & Hocc). exists j. split; [apply in_seq; lia|].
    rewrite Hocc. apply Nat.ltb_lt. lia.
Qed.

(** Two occurrences of the marker never overlap: the marker opens with a
    bracket and has no other. *)
Lemma occurrences_apart (s : list ascii) (j k : nat) :
  occurs_at s j = true -> (0 < k < length marker)%nat ->
  occurs_at s (j + k) = false.
Proof.
  rewrite !occurs_at_match, <- drop_drop. generalize (drop j s) as l.
  clear s j. intros l Hocc Hk.
  change (length marker) with 8%nat in Hk.
  destruct l as [|c0 [|c1 [|c2 [|c3 [|c4 [|c5 [|c6 [|c7 l]]]]]]]];
    cbn [marker list_ascii_of_string match_here] in Hocc;
    try (rewrite ?andb_false_r in Hocc; discriminate Hocc).
  rewrite !andb_true_iff, !Ascii.eqb_eq in Hocc.
  destruct Hocc as (_ & H1 & H2 & H3 & H4 & H5 & H6 & H7 & _).
  assert (Hk' : (k = 1 \/ k = 2 \/ k = 3 \/ k = 4 \/ k = 5 \/ k = 6 \/ k = 7)%nat) by lia.
  destruct Hk' as [->|[->|[->|[->|[->|[->| ->]]]]]];
    cbn [drop marker list_ascii_of_string match_here];
    rewrite <- ?H1, <- ?H2, <- ?H3, <- ?H4, <- ?H5, <- ?H6, <- ?H7; reflexivity.
Qed.

Lemma replace_from_without (s : list ascii) :
  forall (l : list ascii) (n skip : nat),
    drop n s = l -> scan_invariant s n skip ->
    replace_from skip l =
    mjoin (imap (fun i c => if inside_occurrence s (n + i) then [] else [c]) l).
Proof.
  induction l as [|c l IH]; intros n skip Hdrop Hinv; [reflexivity|].
  assert (Hnext : drop (S n) s = l).
  { rewrite <- (Nat.add_1_r n), <- drop_drop, Hdrop. reflexivity. }
  assert (Hhere : occurs_at s n = match_here marker (c :: l)).
  { rewrite occurs_at_match, Hdrop. reflexivity. }
  rewrite imap_cons. cbn [mjoin list_join]. rewrite Nat.add_0_r.
  rewrite (imap_ext _ (fun i c => if inside_occurrence s (S n + i) then [] else [c]))
    by (intros i x _; cbn; rewrite Nat.add_succ_r; reflexivity).
  assert (HL : length marker = 8%nat) by reflexivity.
  unfold scan_invariant in Hinv.
  destruct Hinv as [[-> Hfree]|(j & Hj & Hocc & Hpos & Hskip)].
  - cbn [replace_from]. rewrite <- Hhere.
    destruct (occurs_at s n) eqn:Hn.
    + assert (Hin : inside_occurrence s n = true).
      { apply inside_occurrence_spec. exists n. split; [lia | exact Hn]. }
      rewrite Hin. cbn [app]. apply (IH (S n)); [exact Hnext|].
      right. exists n. split; [lia | split; [exact Hn | lia]].
    + assert (Hout : inside_occurrence s n = false).
      { apply not_true_is_false. intros Hin.
        apply inside_occurrence_spec in Hin as (j & Hj & Hocc).
        destruct (Nat.eq_dec j n) as [->|Hne]; [congruence|].
        rewrite Hfree in Hocc by lia. discriminate. }
      rewrite Hout. cbn [app]. f_equal. apply (IH (S n)); [exact Hnext|].
      left. split; [reflexivity|]. intros j Hj.
      destruct (Nat.eq_dec j n) as [->|Hne]; [exact Hn | apply Hfree; lia].
  - destruct skip as [|k]; [lia|]. cbn [replace_from].
    assert (Hin : inside_occurrence s n = true).
    { apply inside_occurrence_spec. exists j. split; [lia | exact Hocc]. }
    rewrite Hin. cbn [app]. apply (IH (S n)); [exact Hnext|].
    destruct k as [|k].
    + left. split; [reflexivity|]. intros j' Hj'.
      replace j' with (j + (j' - j))%nat by lia.
      apply occurrences_apart; [exact Hocc | lia].
    + right. exists j. split; [lia | split; [exact Hocc | lia]].
Qed.

(** What [replace] returns is the message without the code units that lie
    inside an occurrence of the marker. *)
Lemma regex_replace_without (s : list ascii) :
  regex_replace s = without_occurrences s.
Proof.
  unfold regex_replace, without_occurrences.
  apply (replace_from_without s s 0 0); [reflexivity|].
  left. split; [reflexivity|]. intros j Hj. lia.
Qed.

(** C10.  Outside development, for every status code, two errors whose
    messages do not contain the marker (in any letter case) get the same
    result, the one a call without an error gets.  And whenever the result
    has a [detail], in any environment, it is the message of the error
    without the code units that lie inside an occurrence of the marker. *)
Theorem dataFor_discloses_public_only
    (STATUS_CODES : Z -> option string) (VERSION : string) :
  (forall (status : Z) (e1 e2 : Error),
     ~ contains_marker (list_ascii_of_string (message e1)) ->
     ~ contains_marker (list_ascii_of_string (message e2)) ->
     dataFor STATUS_CODES VERSION false status (Some e1) =
     dataFor STATUS_CODES VERSION false status (Some e2) /\
     dataFor STATUS_CODES VERSION false status (Some e1) =
     dataFor STATUS_CODES VERSION false status None) /\
  (forall (isDevelopment : bool) (status : Z) (err : option Error) (d : string),
     In d (details (dataFor STATUS_CODES VERSION isDevelopment status err)) ->
     exists e, err = Some e /\
               d = string_of_list_ascii
                     (without_occurrences (list_ascii_of_string (message e)))).
Proof.
  split.
  - intros status e1 e2 H1 H2. unfold dataFor.
    rewrite <- regex_test_contains in H1, H2.
    apply not_true_is_false in H1, H2. rewrite H1, H2. split; reflexivity.
  - intros isDevelopment status err d. unfold dataFor.
    destruct ((status <? 400) || (status >? 599)); [intros []|].
    destruct err as [e|]; [|intros []].
    destruct (isDevelopment || regex_test _); [|intros []].
    cbn. intros [<-|[]]. exists e. split; [reflexivity|].
    rewrite regex_replace_without. reflexivity.
Qed.

Lemma dataFor_discloses_public_only_witness :
  dataFor (fun _ => Some "Not Found") "1.0" false 404
    (Some {| message := "no such table: users"; stack := "" |}) =
  dataFor (fun _ => Some "Not Found") "1.0" false 404
    (Some {| message := "connect ECONNREFUSED 10.0.0.7:5432"; stack := "" |}).
Proof.
  apply (proj1 (dataFor_discloses_public_only (fun _ => Some "Not Found") "1.0")).
  - rewrite <- regex_test_contains. discriminate.
  - rewrite <- regex_test_contains. discriminate.
Defined.

(* ===================================================================== *)
(** * Further properties of the script *)
(* ===================================================================== *)

(* --------------------------------------------------------------------- *)
(** ** An action is its prelude, then its pipeline, then the report *)
(* --------------------------------------------------------------------- *)

Lemma action_split (w : world) (c : command) (inv : invocation) (e : env) :
  trace_of (action w c inv e) =
    trace_of (prelude c inv e) ++ snd (pipeline w c inv) ++ report w c (outcome w c inv) /\
  env_of (action w c inv e) = env_of (prelude c inv e).
Proof.
  unfold outcome, pipeline.
  destruct c; unfold action, prelude, steps, build_step;
    try destruct (truthy (skipBuild (opts inv)));
    run_chain;
    cbn [run_steps app];
    repeat match goal with H : gateway _ _ _ = _ |- _ => rewrite H; clear H end;
    cbn [run_steps report fst snd app is_number]; cbv zeta;
    repeat match goal with H : exit_refuses _ = _ |- _ => rewrite H; clear H end;
    cbn [app]; rewrite <- ?app_assoc, ?app_nil_r; split; reflexivity.
Qed.

(* --------------------------------------------------------------------- *)
(** ** What [setEnvVar] leaves behind *)
(* --------------------------------------------------------------------- *)

Lemma setEnvVar_tuple (key : string) (val def : value) (e : env) :
  setEnvVar key val def e =
  (Some VUndefined, env_of (setEnvVar key val def e), trace_of (setEnvVar key val def e)).
Proof.
  destruct (setEnvVar_frame key val def e) as (e' & t & H & _). rewrite H. reflexivity.
Qed.

Lemma setEnvVar_lookup (key : string) (val def : value) (e : env) :
  inherited key = false ->
  env_of (setEnvVar key val def e) !! key =
  Some (resolved val (e !! key) (to_string def)).
Proof.
  intros Hown. unfold resolved. destruct (truthy val) eqn:Hval.
  - rewrite (setEnvVar_explicit _ _ _ _ Hval). apply lookup_insert_eq.
  - destruct (e !! key) as [old|] eqn:Hkey.
    + rewrite (setEnvVar_existing _ _ _ _ _ Hval Hkey). exact Hkey.
    + rewrite (setEnvVar_default _ _ _ _ Hval Hkey Hown). apply lookup_insert_eq.
Qed.

Lemma setEnvVar_other (key : string) (val def : value) (e : env) (k : string) :
  k <> key -> env_of (setEnvVar key val def e) !! k = e !! k.
Proof.
  intros Hk. destruct (setEnvVar_frame key val def e) as (e' & t & H & _ & Hframe).
  rewrite H. apply Hframe, Hk.
Qed.

Lemma setEnvVar_writes (key : string) (val def : value) (e : env) :
  Forall (fun ev => is_env_write ev = true) (trace_of (setEnvVar key val def e)).
Proof.
  destruct (truthy val) eqn:Hval.
  - rewrite (setEnvVar_explicit _ _ _ _ Hval). repeat constructor.
  - destruct (e !! key) as [old|] eqn:Hkey.
    + rewrite (setEnvVar_existing _ _ _ _ _ Hval Hkey). constructor.
    + destruct (inherited key) eqn:Hown.
      * rewrite (setEnvVar_inherited _ _ _ _ Hval Hown). constructor.
      * rewrite (setEnvVar_default _ _ _ _ Hval Hkey Hown). repeat constructor.
Qed.

(** X1.  Once [setEnvVar] has run for a key, the key is settled: a later
    call for the same key without an explicit value changes nothing and
    writes nothing, whatever its default; and repeating a call with the
    same arguments leaves the environment as the first call left it. *)
Theorem setEnvVar_settles (key : string) (val def : value) (e : env) :
  let e1 := env_of (setEnvVar key val def e) in
  (forall val' def', truthy val' = false ->
     setEnvVar key val' def' e1 = (Some VUndefined, e1, [])) /\
  env_of (setEnvVar key val def e1) = e1.
Proof.
  cbv zeta.
  assert (Hquiet : forall val' def', truthy val' = false ->
            setEnvVar key val' def' (env_of (setEnvVar key val def e)) =
            (Some VUndefined, env_of (setEnvVar key val def e), [])).
  { intros val' def' Hval'. destruct (inherited key) eqn:Hown.
    - apply (setEnvVar_inherited _ _ _ _ Hval' Hown).
    - apply (setEnvVar_existing _ _ _ _ _ Hval' (setEnvVar_lookup key val def e Hown)). }
  set (e1 := env_of (setEnvVar key val def e)) in *.
  split; [exact Hquiet|].
  destruct (truthy val) eqn:Hval.
  - rewrite (setEnvVar_explicit key val def e1 Hval).
    unfold e1. rewrite (setEnvVar_explicit key val def e Hval).
    apply insert_insert_eq.
  - rewrite (Hquiet val def Hval). reflexivity.
Qed.

Lemma setEnvVar_settles_witness :
  setEnvVar "NODE_ENV" VUndefined (VStr "development")
    (env_of (setEnvVar "NODE_ENV" (VStr "production") (VStr "development") ∅))
  = (Some VUndefined,
     env_of (setEnvVar "NODE_ENV" (VStr "production") (VStr "development") ∅), []).
Proof.
  apply (setEnvVar_settles "NODE_ENV" (VStr "production") (VStr "development") ∅).
  reflexivity.
Defined.

(* --------------------------------------------------------------------- *)
(** ** The environment an action leaves to the handlers *)
(* --------------------------------------------------------------------- *)

(** Replaces the outermost [setEnvVar] call that is being matched on by its
    result triple. *)
Ltac run_setEnvVar :=
  repeat match goal with
         | |- context [match setEnvVar ?k ?v ?d ?e with _ => _ end] =>
             rewrite (setEnvVar_tuple k v d e); cbv beta iota
         end.

Lemma prelude_writes (c : command) (inv : invocation) (e : env) :
  Forall (fun ev => is_env_write ev = true) (trace_of (prelude c inv e)).
Proof.
  destruct c; unfold prelude, stmt, bind, ret, env_set;
    run_setEnvVar; cbn [trace_of snd];
    rewrite ?app_nil_r;
    repeat first [ apply Forall_app_2 | apply setEnvVar_writes
                 | apply Forall_nil_2
                 | apply Forall_cons_2; [reflexivity|] ].
Qed.

Lemma run_steps_no_writes (w : world) (ss : list (string * list value)) (last : promise) :
  Forall (fun ev => is_env_write ev = false) (snd (run_steps w last ss)).
Proof.
  assert (Hg : forall cmd args,
            Forall (fun ev => is_env_write ev = false) (gateway_events w cmd args)).
  { intros cmd args. unfold gateway_events. destruct (gated w cmd); repeat constructor. }
  revert last. induction ss as [|[cmd args] ss IH]; intros last; cbn [run_steps].
  - constructor.
  - destruct (gateway w cmd args) as [v| |]; cbn [snd]; try apply Hg.
    specialize (IH (Resolved v)). destruct (run_steps w (Resolved v) ss) as [p t].
    cbn [snd] in *. apply Forall_app_2; [apply Hg | exact IH].
Qed.

(** X2.  In every action all writes to [process.env] come first: the trace
    is a run of environment writes followed by gateway calls, handler
    calls and the report, with no write among them.  No handler is asked
    for before the environment is in place. *)
Theorem environment_is_set_before_any_step
    (w : world) (c : command) (inv : invocation) (e : env) :
  exists writes rest,
    trace_of (action w c inv e) = writes ++ rest /\
    Forall (fun ev => is_env_write ev = true) writes /\
    Forall (fun ev => is_env_write ev = false) rest /\
    exec_names writes = [] /\
    exec_names rest = exec_names (trace_of (action w c inv e)).
Proof.
  exists (trace_of (prelude c inv e)),
         (snd (pipeline w c inv) ++ report w c (outcome w c inv)).
  pose proof (prelude_writes c inv e) as Hw.
  assert (Hnone : exec_names (trace_of (prelude c inv e)) = []).
  { induction Hw as [|ev t Hev _ IH]; [reflexivity|].
    destruct ev; try discriminate Hev. exact IH. }
  split; [apply action_split|]. split; [exact Hw|]. split.
  - apply Forall_app_2; [apply run_steps_no_writes|].
    destruct (outcome w c inv), c; cbn [report]; cbv zeta;
      try destruct (exit_refuses _); repeat constructor.
  - split; [exact Hnone|].
    rewrite (proj1 (action_split w c inv e)).
    rewrite (exec_names_app (trace_of (prelude c inv e))), Hnone. reflexivity.
Qed.

Lemma prelude_env_node_env (c : command) (inv : invocation) (e : env) :
  takes_environment c = true ->
  env_of (prelude c inv e) !! "NODE_ENV" =
  Some (resolved (environment (opts inv)) (e !! "NODE_ENV") "development").
Proof.
  intros Hc.
  destruct c; try discriminate Hc; unfold prelude, stmt, bind, ret, env_set;
    run_setEnvVar; cbn [env_of fst snd];
    rewrite ?lookup_insert_ne by discriminate;
    rewrite setEnvVar_lookup by reflexivity;
    rewrite ?setEnvVar_other by discriminate; reflexivity.
Qed.

Lemma node_env_of_callback
    (w : world) (c : command) (inv : invocation) (e : env) :
  takes_environment c = true ->
  env_of (action w c inv e) !! "NODE_ENV" =
  Some (resolved (environment (opts inv)) (e !! "NODE_ENV") "development").
Proof.
  intros Hc. rewrite (proj2 (action_split w c inv e)).
  apply prelude_env_node_env, Hc.
Qed.

Lemma serve_port_of_callback (w : world) (inv : invocation) (e : env) :
  env_of (action w Serve inv e) !! "PORT" =
  Some (resolved (port (opts inv)) (e !! "PORT") "4000").
Proof.
  rewrite (proj2 (action_split w Serve inv e)).
  unfold prelude, stmt, bind, ret. run_setEnvVar. cbn [env_of fst snd].
  rewrite setEnvVar_other by discriminate. apply setEnvVar_lookup. reflexivity.
Qed.

Lemma takes_environment_options (c : command) :
  takes_environment c = true -> options_parameter c = Some 0%nat.
Proof. destruct c; intros H; try discriminate H; reflexivity. Qed.

(** X3.  Every command declared with [--environment] (build, console,
    serve and the six database commands), run with no word besides the
    command name and its options, leaves [NODE_ENV] set: to the string
    form of the option when it is truthy, otherwise to the value the
    variable already had, otherwise to ["development"].  When a stray word
    follows the command name the option is not seen: [NODE_ENV] keeps the
    value it had, or becomes ["development"]. *)
Theorem node_env_is_resolved
    (w : world) (name : string) (c : command) (inv : invocation) (e : env) :
  find_command name registry = Some c ->
  takes_environment c = true ->
  let r := lux w (Some (name, inv)) e in
  (positional inv = [] ->
   well_formed (environment (opts inv)) = true ->
   env_of r !! "NODE_ENV" =
   Some (resolved (environment (opts inv)) (e !! "NODE_ENV") "development")) /\
  (forall word words, positional inv = VStr word :: words ->
   env_of r !! "NODE_ENV" = Some (default "development" (e !! "NODE_ENV"))).
Proof.
  intros Hreg Hc. cbv zeta. unfold lux. rewrite Hreg. split.
  - intros Hpos _.
    assert (Hargs : callback_arguments c inv = inr [command_object (opts inv)]).
    { destruct c; try discriminate Hc; cbn [callback_arguments];
        rewrite Hpos; reflexivity. }
    rewrite Hargs, (node_env_of_callback _ _ _ _ Hc).
    rewrite (received_plain c (opts inv) (takes_environment_options c Hc)).
    reflexivity.
  - intros word words Hpos.
    assert (Hargs : callback_arguments c inv =
                    inr (VStr word :: words ++ [command_object (opts inv)])).
    { destruct c; try discriminate Hc; cbn [callback_arguments];
        rewrite Hpos; reflexivity. }
    rewrite Hargs, (node_env_of_callback _ _ _ _ Hc).
    destruct c; try discriminate Hc; reflexivity.
Qed.

Lemma node_env_is_resolved_witness :
  env_of (lux outside_host (Some ("db:seed", mkInvocation [] no_options))
            {["NODE_ENV" := "test"]})
    !! "NODE_ENV" = Some "test".
Proof.
  exact (proj1 (node_env_is_resolved outside_host "db:seed" DbSeed
                  (mkInvocation [] no_options)
                  {["NODE_ENV" := "test"]} eq_refl eq_refl) eq_refl eq_refl).
Defined.

(** X4.  [lux serve], run with no word besides the command name and its
    options, leaves [PORT] set: to the string form of [--port] when that
    is truthy, otherwise to the value the variable already had, otherwise
    to ["4000"].  A port that parsed to [NaN] or to 0 counts as not given.
    When a stray word follows the command name the option is not seen:
    [PORT] keeps the value it had, or becomes ["4000"]. *)
Theorem serve_port_is_resolved
    (w : world) (name : string) (inv : invocation) (e : env) :
  find_command name registry = Some Serve ->
  let r := lux w (Some (name, inv)) e in
  (positional inv = [] ->
   well_formed (port (opts inv)) = true ->
   env_of r !! "PORT" = Some (resolved (port (opts inv)) (e !! "PORT") "4000") /\
   (port (opts inv) = VNaN \/ port (opts inv) = VNum 0 \/ port (opts inv) = VUndefined ->
    env_of r !! "PORT" = Some (default "4000" (e !! "PORT")))) /\
  (forall word words, positional inv = VStr word :: words ->
   env_of r !! "PORT" = Some (default "4000" (e !! "PORT"))).
Proof.
  intros Hreg. cbv zeta. unfold lux. rewrite Hreg. cbn [callback_arguments]. split.
  - intros Hpos _. rewrite Hpos. cbn [app].
    rewrite serve_port_of_callback, (received_plain Serve (opts inv) eq_refl).
    split; [reflexivity|]. intros Hp. unfold resolved.
    destruct Hp as [-> | [-> | ->]]; reflexivity.
  - intros word words Hpos. rewrite Hpos.
    rewrite serve_port_of_callback. reflexivity.
Qed.

Lemma serve_port_is_resolved_witness :
  env_of (lux outside_host
            (Some ("serve",
                   mkInvocation [] {| database := VUndefined; environment := VUndefined;
                                      useWeak := VUndefined; skipBuild := VUndefined;
                                      hot := VUndefined; port := VNaN;
                                      cluster := VUndefined |}))
            {["PORT" := "8080"]}) !! "PORT"
  = Some (default "4000" (({["PORT" := "8080"]} : env) !! "PORT")).
Proof.
  apply (proj1 (serve_port_is_resolved outside_host "serve"
           (mkInvocation [] {| database := VUndefined; environment := VUndefined;
                               useWeak := VUndefined; skipBuild := VUndefined;
                               hot := VUndefined; port := VNaN;
                               cluster := VUndefined |})
           {["PORT" := "8080"]} eq_refl) eq_refl eq_refl).
  left. reflexivity.
Defined.

Lemma env_writes_none (t : list event) :
  Forall (fun ev => is_env_write ev = false) t -> env_writes t = 0%nat.
Proof.
  unfold env_writes. induction 1 as [|ev t Hev _ IH]; [reflexivity|].
  cbn [List.filter]. destruct ev; try discriminate Hev; exact IH.
Qed.

(** X5.  The script writes three variables and no other: a variable other
    than [NODE_ENV], [PORT] and [LUX_CONSOLE] has after any action the
    value it had before; [PORT] is touched by [serve] only and
    [LUX_CONSOLE] by [console] only, which sets it to ["true"]; and the
    commands without [--environment] (new, test, generate, destroy) leave
    the whole environment as it was, without a single write. *)
Theorem environment_frame (w : world) (c : command) (inv : invocation) (e : env) :
  let e' := env_of (action w c inv e) in
  (forall k, k <> "NODE_ENV" -> k <> "PORT" -> k <> "LUX_CONSOLE" -> e' !! k = e !! k) /\
  (c <> Serve -> e' !! "PORT" = e !! "PORT") /\
  (c <> Console -> e' !! "LUX_CONSOLE" = e !! "LUX_CONSOLE") /\
  (c = Console -> e' !! "LUX_CONSOLE" = Some "true") /\
  (takes_environment c = false ->
     e' = e /\ env_writes (trace_of (action w c inv e)) = 0%nat).
Proof.
  cbv zeta. rewrite (proj2 (action_split w c inv e)).
  split; [|split; [|split; [|split]]].
  - intros k Hn Hp Hl.
    destruct c; unfold prelude, stmt, bind, ret, env_set;
      run_setEnvVar; cbn [env_of fst snd];
      rewrite ?lookup_insert_ne by congruence;
      rewrite ?setEnvVar_other by congruence; reflexivity.
  - intros Hc.
    destruct c; try contradiction; unfold prelude, stmt, bind, ret, env_set;
      run_setEnvVar; cbn [env_of fst snd];
      rewrite ?lookup_insert_ne by discriminate;
      rewrite ?setEnvVar_other by discriminate; reflexivity.
  - intros Hc.
    destruct c; try contradiction; unfold prelude, stmt, bind, ret, env_set;
      run_setEnvVar; cbn [env_of fst snd];
      rewrite ?setEnvVar_other by discriminate; reflexivity.
  - intros ->. unfold prelude, stmt, bind, ret, env_set.
    run_setEnvVar. cbn [env_of fst snd]. apply lookup_insert_eq.
  - intros Hc. destruct c; try discriminate Hc;
      (split; [reflexivity|]);
      rewrite (proj1 (action_split w _ inv e)); cbn [prelude ret trace_of snd app];
      apply env_writes_none, Forall_app_2;
      try apply run_steps_no_writes;
      match goal with
      | |- context [report _ ?c ?p] =>
          destruct p; cbn [report]; cbv zeta;
          try destruct (exit_refuses _); repeat constructor
      end.
Qed.

Lemma environment_frame_witness :
  env_of (action outside_host Test (mkInvocation [] no_options) {["HOME" := "/root"]})
    = {["HOME" := "/root"]} /\
  env_writes (trace_of (action outside_host Test (mkInvocation [] no_options)
                          {["HOME" := "/root"]})) = 0%nat.
Proof.
  apply (environment_frame outside_host Test (mkInvocation [] no_options)
           {["HOME" := "/root"]}).
  reflexivity.
Defined.

(* --------------------------------------------------------------------- *)
(** ** The gateway when nothing stands in the way *)
(* --------------------------------------------------------------------- *)

(** X6.  When the name is not one the project pattern accepts, or the
    working directory is a Lux application, [exec] calls the handler once
    with the arguments it was given and returns the handler's promise as
    it is. *)
Theorem exec_reaches_handler
    (w : world) (cmd : string) (args : list value) (e : env) :
  needsProject cmd = false \/ inLuxProject w = true ->
  exec w cmd args e = (Some (dist w cmd args), e, [EvExec cmd args; EvCall cmd args]).
Proof.
  intros H. rewrite exec_run. unfold gateway, gateway_events, gated.
  destruct H as [-> | ->]; rewrite ?andb_false_r; reflexivity.
Qed.

Lemma exec_reaches_handler_witness :
  exec outside_host "create" [VStr "blog"; VStr "sqlite"] ∅ =
  (Some (dist outside_host "create" [VStr "blog"; VStr "sqlite"]), ∅,
   [EvExec "create" [VStr "blog"; VStr "sqlite"];
    EvCall "create" [VStr "blog"; VStr "sqlite"]]).
Proof.
  apply (exec_reaches_handler outside_host "create" [VStr "blog"; VStr "sqlite"] ∅).
  left. reflexivity.
Defined.

Lemma run_steps_call_in (w : world) (ss : list (string * list value)) (last : promise)
    (cmd : string) (args : list value) :
  In (EvExec cmd args) (snd (run_steps w last ss)) -> gated w cmd = false ->
  In (EvCall cmd args) (snd (run_steps w last ss)).
Proof.
  intros Hin Hg. revert last Hin.
  induction ss as [|[cmd' args'] ss IH]; intros last; cbn [run_steps]; [intros []|].
  assert (Hhere : In (EvExec cmd args) (gateway_events w cmd' args') ->
                  In (EvCall cmd args) (gateway_events w cmd' args')).
  { unfold gateway_events. destruct (gated w cmd') eqn:Hg'; cbn.
    - intros [[= -> ->]|[]]. congruence.
    - intros [[= -> ->]|[[=]|[]]]. auto. }
  destruct (gateway w cmd' args') as [v| |]; cbn [snd]; try exact Hhere.
  specialize (IH (Resolved v)). destruct (run_steps w (Resolved v) ss) as [p t].
  cbn [snd] in *. rewrite !in_app_iff. intros [H|H]; [left; apply Hhere, H | right; apply IH, H].
Qed.

Lemma in_dispatch_events (ev : event) (t : list event) :
  In ev (dispatch_events t) -> In ev t.
Proof. unfold dispatch_events. rewrite List.filter_In. tauto. Qed.

(** X7.  Of the handlers the actions ask for, the project pattern covers
    [test], [build], [serve], [generate] and [destroy] only.  A request an
    action makes for any other handler ([create], [repl] and the five
    database handlers) is for a name the pattern rejects, and the handler
    is called in whatever directory the command runs. *)
Theorem requests_outside_the_pattern
    (w : world) (c : command) (inv : invocation) (e : env)
    (cmd : string) (args : list value) :
  In (EvExec cmd args) (trace_of (action w c inv e)) ->
  ~ In cmd ["test"; "build"; "serve"; "generate"; "destroy"] ->
  In cmd ["create"; "repl"; "dbcreate"; "dbdrop"; "dbmigrate"; "dbrollback"; "dbseed"] /\
  needsProject cmd = false /\
  In (EvCall cmd args) (trace_of (action w c inv e)).
Proof.
  intros Hin Hout.
  pose proof (proj1 (action_exec_in_steps w c inv e cmd args) Hin) as Hpipe.
  pose proof (run_steps_exec_in _ _ _ _ _ Hpipe) as Hstep.
  assert (Hname : In cmd ["create"; "repl"; "dbcreate"; "dbdrop"; "dbmigrate";
                          "dbrollback"; "dbseed"]).
  { destruct c; unfold steps, build_step in Hstep;
      try destruct (truthy (skipBuild (opts inv)));
      cbn [In app] in Hstep;
      repeat match goal with
             | H : _ \/ _ |- _ => destruct H
             | H : False |- _ => destruct H
             | H : (_, _) = (_, _) |- _ => injection H as <- <-
             end;
      cbn [In] in *; tauto. }
  assert (Hneeds : needsProject cmd = false).
  { cbn [In] in Hname.
    repeat match goal with
           | H : _ \/ _ |- _ => destruct H
           | H : False |- _ => destruct H
           | H : _ = cmd |- _ => rewrite <- H
           end; reflexivity. }
  split; [exact Hname|]. split; [exact Hneeds|].
  apply in_dispatch_events. rewrite action_dispatch_events. apply in_app_iff. left.
  apply run_steps_call_in; [exact Hpipe|]. unfold gated. rewrite Hneeds. reflexivity.
Qed.

Lemma requests_outside_the_pattern_witness :
  In (EvCall "dbdrop" [])
     (trace_of (action outside_host DbDrop
                  (mkInvocation [] (with_skip_build no_options)) ∅)).
Proof.
  apply (requests_outside_the_pattern outside_host DbDrop
           (mkInvocation [] (with_skip_build no_options)) ∅ "dbdrop" []).
  - right. left. reflexivity.
  - cbn. intros [H|[H|[H|[H|[H|[]]]]]]; discriminate H.
Defined.



(** X9.  [lux new] never consults the validator: in every directory it
    asks for [create] with the name and the database driver, the handler
    is called, and the report follows the handler's promise. *)
Theorem new_runs_anywhere (w : world) (inv : invocation) (e : env) :
  let args := [arg 0 inv; database (opts inv)] in
  action w New inv e =
  (match dist w "create" args with
   | Pending => Some tt
   | _ => None
   end,
   e,
   [EvExec "create" args; EvCall "create" args] ++ report w New (dist w "create" args)).
Proof.
  cbv zeta. unfold action. run_monad. rewrite exec_run.
  change (gateway w "create" [arg 0 inv; database (opts inv)])
    with (dist w "create" [arg 0 inv; database (opts inv)]).
  change (gateway_events w "create" [arg 0 inv; database (opts inv)])
    with [EvExec "create" [arg 0 inv; database (opts inv)];
          EvCall "create" [arg 0 inv; database (opts inv)]].
  destruct (dist w "create" [arg 0 inv; database (opts inv)]) as [v| |];
    run_monad; rewrite ?exit_run, ?rescue_run; cbn [report]; cbv zeta;
    try destruct (exit_refuses _); reflexivity.
Qed.

(* --------------------------------------------------------------------- *)
(** ** One step after the other *)
(* --------------------------------------------------------------------- *)

(** A run goes through the steps that resolve and ends at the first step
    that does not, with that step's promise. *)
Lemma run_steps_stops (w : world) (pre post : list (string * list value))
    (cmd : string) (args : list value) (last : promise) :
  all_resolve w pre ->
  (forall v, gateway w cmd args <> Resolved v) ->
  fst (run_steps w last (pre ++ (cmd, args) :: post)) = gateway w cmd args /\
  exec_names (snd (run_steps w last (pre ++ (cmd, args) :: post))) = map fst pre ++ [cmd].
Proof.
  intros Hpre Hstop. revert last.
  induction Hpre as [|[cmd' args'] pre [v Hv] _ IH]; intros last; cbn [app run_steps map fst].
  - destruct (gateway w cmd args) as [v| |] eqn:Hg;
      [destruct (Hstop v); reflexivity | |];
      cbn [fst snd]; rewrite exec_names_gateway; split; reflexivity.
  - cbn [fst snd] in Hv. rewrite Hv. specialize (IH (Resolved v)).
    destruct (run_steps w (Resolved v) (pre ++ (cmd, args) :: post)) as [p t].
    cbn [fst snd] in *. rewrite exec_names_app, exec_names_gateway.
    destruct IH as [-> ->]. split; reflexivity.
Qed.

Lemma steps_names_NoDup (c : command) (inv : invocation) :
  NoDup (map fst (steps c inv)).
Proof.
  destruct c; unfold steps, build_step;
    try destruct (truthy (skipBuild (opts inv)));
    cbn [map fst app];
    apply (bool_decide_unpack _); reflexivity.
Qed.





Lemma run_steps_calls_sublist (w : world) (ss : list (string * list value)) (last : promise) :
  call_names (snd (run_steps w last ss)) `sublist_of` exec_names (snd (run_steps w last ss)).
Proof.
  assert (Hg : forall cmd args,
            call_names (gateway_events w cmd args) `sublist_of`
            exec_names (gateway_events w cmd args)).
  { intros cmd args. rewrite call_names_gateway, exec_names_gateway.
    destruct (gated w cmd); [apply sublist_nil_l | reflexivity]. }
  revert last. induction ss as [|[cmd args] ss IH]; intros last; cbn [run_steps].
  - reflexivity.
  - destruct (gateway w cmd args) as [v| |]; cbn [snd]; try apply Hg.
    specialize (IH (Resolved v)). destruct (run_steps w (Resolved v) ss) as [p t].
    cbn [snd] in *. rewrite call_names_app, exec_names_app.
    apply sublist_app; [apply Hg | exact IH].
Qed.

(** X12.  No action asks the gateway twice for the same handler, and no
    handler is called twice.  The handlers called are, in order, among
    the handlers asked for, and those are an initial segment of the steps
    of the command. *)
Theorem each_handler_at_most_once
    (w : world) (c : command) (inv : invocation) (e : env) :
  let t := trace_of (action w c inv e) in
  exec_names t `prefix_of` map fst (steps c inv) /\
  call_names t `sublist_of` exec_names t /\
  NoDup (exec_names t) /\
  NoDup (call_names t).
Proof.
  cbv zeta. rewrite action_exec_names, action_call_names. unfold pipeline.
  pose proof (run_steps_exec_prefix w (steps c inv) (Resolved VUndefined)) as Hpre.
  pose proof (run_steps_calls_sublist w (steps c inv) (Resolved VUndefined)) as Hsub.
  assert (Hnd : NoDup (exec_names (snd (run_steps w (Resolved VUndefined) (steps c inv))))).
  { destruct Hpre as [k Hk]. pose proof (steps_names_NoDup c inv) as H.
    rewrite Hk in H. apply NoDup_app in H as (H & _). exact H. }
  split; [exact Hpre|]. split; [exact Hsub|]. split; [exact Hnd|].
  apply (sublist_NoDup _ _ Hnd Hsub).
Qed.

(* --------------------------------------------------------------------- *)
(** ** The registry *)
(* --------------------------------------------------------------------- *)

Lemma find_command_In (r : list (string * command)) (name : string) (c : command) :
  find_command name r = Some c -> In (name, c) r.
Proof.
  induction r as [|[n c'] r IH]; cbn [find_command]; [discriminate|].
  destruct (String.eqb_spec name n) as [->|Hne].
  - intros [= ->]. left. reflexivity.
  - intros H. right. apply IH, H.
Qed.

Lemma In_find_command (r : list (string * command)) (name : string) (c : command) :
  NoDup (map fst r) -> In (name, c) r -> find_command name r = Some c.
Proof.
  induction r as [|[n c'] r IH]; cbn [find_command map fst]; [intros _ []|].
  intros Hnd [[= -> ->]|Hin].
  - rewrite String.eqb_refl. reflexivity.
  - apply NoDup_cons in Hnd as [Hn Hnd].
    destruct (String.eqb_spec name n) as [->|Hne]; [|apply IH; assumption].
    destruct Hn. apply list_elem_of_In. apply (in_map fst _ _ Hin).
Qed.

(** X13.  No name is registered twice, so looking a name up gives exactly
    the command it is listed with, and a command's name and its alias run
    the same action.  The destroy command answers to [d] and to the
    literal alias ["destroy <type> <name>"]: the bare word [destroy] is
    not a registered name. *)
Theorem registry_lookup :
  NoDup (map fst registry) /\
  (forall name c, find_command name registry = Some c <-> In (name, c) registry) /\
  (forall w inv e n1 n2 c,
     In (n1, c) registry -> In (n2, c) registry ->
     lux w (Some (n1, inv)) e = lux w (Some (n2, inv)) e) /\
  (forall name, find_command name registry = Some Destroy <->
                name = "d" \/ name = "destroy <type> <name>").
Proof.
  assert (Hnd : NoDup (map fst registry)) by (apply (bool_decide_unpack _); reflexivity).
  assert (Hiff : forall name c,
            find_command name registry = Some c <-> In (name, c) registry).
  { intros name c. split; [apply find_command_In | apply In_find_command, Hnd]. }
  split; [exact Hnd|]. split; [exact Hiff|]. split.
  - intros w inv e n1 n2 c H1 H2. apply Hiff in H1, H2.
    unfold lux. rewrite H1, H2. reflexivity.
  - intros name. rewrite Hiff. unfold registry. cbn [In]. split.
    + intros H.
      repeat match goal with
             | H : _ \/ _ |- _ => destruct H
             | H : False |- _ => destruct H
             | H : (_, _) = (_, _) |- _ => inversion H; clear H
             end; auto.
    + intros [-> | ->]; auto 20.
Qed.

Lemma registry_lookup_witness :
  lux fixture_host (Some ("s", serve_port_5000_weak)) ∅ =
  lux fixture_host (Some ("serve", serve_port_5000_weak)) ∅.
Proof.
  apply (proj1 (proj2 (proj2 registry_lookup))) with (c := Serve).
  - do 8 right. left. reflexivity.
  - do 9 right. left. reflexivity.
Defined.

(* --------------------------------------------------------------------- *)
(** ** [dataFor]: the document and its detail *)
(* --------------------------------------------------------------------- *)

Lemma regex_replace_unmarked (s : list ascii) :
  regex_test s = false -> regex_replace s = s.
Proof.
  unfold regex_replace. induction s as [|c s IH]; [reflexivity|].
  cbn [regex_test replace_from]. intros H.
  apply orb_false_iff in H as [Hhere Hrest].
  rewrite Hhere, (IH Hrest). reflexivity.
Qed.

Lemma replace_from_sublist (s : list ascii) (skip : nat) :
  replace_from skip s `sublist_of` s.
Proof.
  revert skip. induction s as [|c s IH]; intros skip; [reflexivity|].
  cbn [replace_from]. destruct skip as [|k].
  - destruct (match_here marker (c :: s)).
    + apply sublist_cons, IH.
    + apply sublist_skip, IH.
  - apply sublist_cons, IH.
Qed.

Lemma replace_from_length (s : list ascii) (skip : nat) :
  (length (replace_from skip s) + Nat.min skip (length s) <= length s)%nat.
Proof.
  revert skip. induction s as [|c s IH]; intros skip; [cbn; lia|].
  cbn [replace_from length]. destruct skip as [|k].
  - destruct (match_here marker (c :: s)).
    + specialize (IH (length marker - 1)%nat). lia.
    + specialize (IH 0%nat). cbn [length]. lia.
  - specialize (IH k). lia.
Qed.

Lemma match_here_length (pat s : list ascii) :
  match_here pat s = true -> (length pat <= length s)%nat.
Proof.
  revert s. induction pat as [|p pat IH]; intros s; [cbn; lia|].
  destruct s as [|c s]; [discriminate|]. cbn [match_here length].
  intros H. apply andb_true_iff in H as [_ H]. apply IH in H. lia.
Qed.

Lemma regex_replace_shorter (s : list ascii) :
  regex_test s = true ->
  (length (regex_replace s) + length marker <= length s)%nat.
Proof.
  unfold regex_replace. induction s as [|c s IH]; [discriminate|].
  cbn [regex_test replace_from]. intros H.
  destruct (match_here marker (c :: s)) eqn:Hhere.
  - apply match_here_length in Hhere. cbn [length] in *.
    pose proof (replace_from_length s (length marker - 1)) as Hlen.
    change (length marker) with 8%nat in *. lia.
  - cbn [orb] in H. specialize (IH H). cbn [length]. lia.
Qed.

(** X14.  [dataFor] answers with the empty string exactly for a status
    below 400 or above 599.  For any other status it answers with a
    document of one error object and the JSON:API version; the object
    carries the status in decimal, the title the table has for the status
    unless that is missing or empty, and a detail exactly when an error is
    given and either the environment is development or the message
    contains the marker. *)
Theorem dataFor_document
    (STATUS_CODES : Z -> option string) (VERSION : string) (isDevelopment : bool)
    (status : Z) (err : option Error) :
  (dataFor STATUS_CODES VERSION isDevelopment status err = Empty <->
   status < 400 \/ 599 < status) /\
  (400 <= status <= 599 ->
   exists t d,
     dataFor STATUS_CODES VERSION isDevelopment status err =
       Document [ {| status := pretty status; title := t; detail := d |} ] VERSION /\
     (forall s, t = Some s <-> STATUS_CODES status = Some s /\ s <> "") /\
     (is_Some d <->
      exists e, err = Some e /\
                (isDevelopment = true \/
                 contains_marker (list_ascii_of_string (message e))))).
Proof.
  unfold dataFor.
  destruct ((status <? 400) || (status >? 599)) eqn:Hrange.
  - apply orb_true_iff in Hrange as Hr. rewrite Z.ltb_lt, Z.gtb_gt in Hr.
    split; [split; [intros _; lia | reflexivity] | lia].
  - apply orb_false_iff in Hrange as [Hlo Hhi].
    apply Z.ltb_ge in Hlo. rewrite Z.gtb_ltb in Hhi. apply Z.ltb_ge in Hhi.
    split; [split; [discriminate | lia]|]. intros _.
    do 2 eexists. split; [reflexivity|]. split.
    + intros s. destruct (STATUS_CODES status) as [t|]; [|split; [discriminate | intros [[=] _]]].
      destruct (String.eqb_spec t "") as [->|Hne].
      * split; [discriminate | intros [[= <-] H]; contradiction].
      * split; [intros [= <-]; auto | intros [[= <-] _]; reflexivity].
    + destruct err as [e|]; [|split; [intros [x [=]] | intros (e & [=] & _)]].
      destruct isDevelopment; cbn [orb].
      * split; [intros _; exists e; auto | intros _; eexists; reflexivity].
      * destruct (regex_test (list_ascii_of_string (message e))) eqn:Ht.
        -- split; [intros _; exists e; split; [reflexivity|]
                  | intros _; eexists; reflexivity].
           right. apply regex_test_contains, Ht.
        -- split; [intros [x [=]] | intros (e' & [= <-] & [[=]|H])].
           apply regex_test_contains in H. congruence.
Qed.

Lemma dataFor_document_witness :
  exists t d,
    dataFor (fun _ => Some "Not Found") "1.0" false 404 None =
      Document [ {| status := pretty 404; title := t; detail := d |} ] "1.0" /\
    (forall s, t = Some s <-> Some "Not Found" = Some s /\ s <> "") /\
    (is_Some d <->
     exists e, None = Some e /\
               (false = true \/ contains_marker (list_ascii_of_string (message e)))).
Proof.
  apply (proj2 (dataFor_document (fun _ => Some "Not Found") "1.0" false 404 None)).
  lia.
Defined.

(** X15.  In development a message that does not contain the marker is
    handed on as it is: the detail is the message. *)
Theorem dataFor_development_verbatim
    (STATUS_CODES : Z -> option string) (VERSION : string) (status : Z) (e : Error) :
  400 <= status <= 599 ->
  ~ contains_marker (list_ascii_of_string (message e)) ->
  details (dataFor STATUS_CODES VERSION true status (Some e)) = [message e].
Proof.
  intros Hrange Hclean. unfold dataFor.
  replace ((status <? 400) || (status >? 599)) with false
    by (symmetry; apply orb_false_iff; rewrite Z.gtb_ltb; split; apply Z.ltb_ge; lia).
  rewrite <- regex_test_contains in Hclean. apply not_true_is_false in Hclean.
  cbn. rewrite (regex_replace_unmarked _ Hclean), string_of_list_ascii_of_string.
  reflexivity.
Qed.

Lemma dataFor_development_verbatim_witness :
  details (dataFor (fun _ => None) "1.0" true 500
             (Some {| message := "no such table: users"; stack := "at query" |}))
  = ["no such table: users"].
Proof.
  apply (dataFor_development_verbatim (fun _ => None) "1.0" 500
           {| message := "no such table: users"; stack := "at query" |}).
  - lia.
  - rewrite <- regex_test_contains. discriminate.
Defined.

(** X16.  A detail never adds to the message: its code units are code
    units of the message, in the same order; and when the message contains
    the marker the detail is at least the eight code units of one marker
    shorter than the message. *)
Theorem dataFor_detail_within_message
    (STATUS_CODES : Z -> option string) (VERSION : string) (isDevelopment : bool)
    (status : Z) (e : Error) (d : string) :
  In d (details (dataFor STATUS_CODES VERSION isDevelopment status (Some e))) ->
  list_ascii_of_string d `sublist_of` list_ascii_of_string (message e) /\
  (contains_marker (list_ascii_of_string (message e)) ->
   (length (list_ascii_of_string d) + 8 <= length (list_ascii_of_string (message e)))%nat).
Proof.
  unfold dataFor.
  destruct ((status <? 400) || (status >? 599)); [intros []|].
  destruct (isDevelopment || regex_test _); [|intros []].
  cbn. intros [<-|[]]. rewrite list_ascii_of_string_of_list_ascii. split.
  - apply replace_from_sublist.
  - intros Hc. apply regex_test_contains in Hc. apply (regex_replace_shorter _ Hc).
Qed.

Lemma dataFor_detail_within_message_witness :
  list_ascii_of_string "Email is taken " `sublist_of`
    list_ascii_of_string "Email is taken [PUBLIC]" /\
  (contains_marker (list_ascii_of_string "Email is taken [PUBLIC]") ->
   (length (list_ascii_of_string "Email is taken ") + 8
    <= length (list_ascii_of_string "Email is taken [PUBLIC]"))%nat).
Proof.
  apply (dataFor_detail_within_message (fun _ => None) "1.0" false 422
           {| message := "Email is taken [PUBLIC]"; stack := "" |} "Email is taken ").
  left. reflexivity.
Defined.

(* --------------------------------------------------------------------- *)
(** ** Inside a Lux application *)
(* --------------------------------------------------------------------- *)

Lemma run_steps_all_resolve (w : world) (ss : list (string * list value)) (last : promise) :
  all_resolve w ss -> exec_names (snd (run_steps w last ss)) = map fst ss.
Proof.
  intros Hall. revert last.
  induction Hall as [|[cmd args] ss [v Hv] _ IH]; intros last; cbn [run_steps map fst].
  - reflexivity.
  - cbn [fst snd] in Hv. rewrite Hv. specialize (IH (Resolved v)).
    destruct (run_steps w (Resolved v) ss) as [p t]. cbn [snd] in *.
    rewrite exec_names_app, exec_names_gateway, IH. reflexivity.
Qed.

Lemma run_steps_calls_in_project (w : world) (ss : list (string * list value)) (last : promise) :
  inLuxProject w = true ->
  call_names (snd (run_steps w last ss)) = exec_names (snd (run_steps w last ss)).
Proof.
  intros Hin.
  assert (Hg : forall cmd args,
            call_names (gateway_events w cmd args) = exec_names (gateway_events w cmd args)).
  { intros cmd args. rewrite call_names_gateway, exec_names_gateway.
    unfold gated. rewrite Hin, andb_false_r. reflexivity. }
  revert last. induction ss as [|[cmd args] ss IH]; intros last; cbn [run_steps].
  - reflexivity.
  - destruct (gateway w cmd args) as [v| |]; cbn [snd]; try apply Hg.
    specialize (IH (Resolved v)). destruct (run_steps w (Resolved v) ss) as [p t].
    cbn [snd] in *. rewrite call_names_app, exec_names_app, Hg, IH. reflexivity.
Qed.


